(** * bluesky_auto: thread publishing and thread generation

    A shallow embedding of [bluesky_publisher.py] (class [BlueskyPublisher])
    and [bluesky_thread_generator.py] (class [BlueskyThreadGenerator]),
    with the properties of the thread-publishing protocol stated over it.

    Conventions of the embedding.
    - A Python [str] is a [string]; each [ascii] stands for the character
      whose code point has the same number, so the model covers text over
      the code points below 256, with Python's own tables for case,
      white space and decimal digits on that range.
    - A value that comes out of [response.json()] is a [json]; Python's
      [None] and JSON's [null] are the same value, [JNull].
    - The outside world (network, clock, file system) is an [env] of
      oracles that see the history of the run; the run itself extends a
      chronological [trace] of the requests sent (with what came back)
      and of the calls to [time.sleep].  Console output is not modelled. *)

From Stdlib Require Import ZArith Ascii.
From Stdlib Require Import Floats.SpecFloat.
From stdpp Require Import base option list gmap strings.

#[local] Set Warnings "-register-all".
#[local] Open Scope Z_scope.

(** ** Python strings *)

Module PyStr.

Definition char_code (c : ascii) : Z := Z.of_nat (Ascii.nat_of_ascii c).

Definition in_range (lo hi : Z) (c : ascii) : bool :=
  (lo <=? char_code c) && (char_code c <=? hi).

(** [str.isupper] on one character below 256: A-Z, and the Latin-1
    capitals U+00C0-U+00DE without the multiplication sign U+00D7. *)
Definition is_upper (c : ascii) : bool :=
  in_range 65 90 c
  || (in_range 192 222 c && negb (char_code c =? 215)).

Definition lower_char (c : ascii) : ascii :=
  if is_upper c then Ascii.ascii_of_nat (Ascii.nat_of_ascii c + 32) else c.

(** [s.lower()] *)
Fixpoint lower (s : string) : string :=
  match s with
  | EmptyString => EmptyString
  | String c s' => String (lower_char c) (lower s')
  end.

(** [c.isspace()]: TAB LF VT FF CR, FS GS RS US, SPACE, NEL, NBSP. *)
Definition is_space (c : ascii) : bool :=
  in_range 9 13 c || in_range 28 32 c
  || (char_code c =? 133) || (char_code c =? 160).

(** The decimal digits below 256, as [\d] sees them. *)
Definition is_digit (c : ascii) : bool := in_range 48 57 c.

(** [s.startswith(p)] *)
Fixpoint startswith (p s : string) : bool :=
  match p, s with
  | EmptyString, _ => true
  | String a p', String b s' => Ascii.eqb a b && startswith p' s'
  | String _ _, EmptyString => false
  end.

(** [s[n:]] for [n >= 0] *)
Fixpoint drop (n : nat) (s : string) : string :=
  match n, s with
  | O, _ => s
  | S n', String _ s' => drop n' s'
  | S _, EmptyString => EmptyString
  end.

(** [s[:n]] for [n >= 0] *)
Fixpoint take (n : nat) (s : string) : string :=
  match n, s with
  | S n', String c s' => String c (take n' s')
  | _, _ => EmptyString
  end.

(** [p in s] *)
Fixpoint contains (p s : string) : bool :=
  startswith p s ||
  match s with
  | EmptyString => false
  | String _ s' => contains p s'
  end.

Fixpoint rev_onto (s acc : string) : string :=
  match s with
  | EmptyString => acc
  | String c s' => rev_onto s' (String c acc)
  end.

Definition rev (s : string) : string := rev_onto s EmptyString.

(** [s.endswith(p)] *)
Definition endswith (p s : string) : bool := startswith (rev p) (rev s).

(** [s.lstrip()], [s.rstrip()] and [s.strip()] without argument. *)
Fixpoint lstrip (s : string) : string :=
  match s with
  | EmptyString => EmptyString
  | String c s' => if is_space c then lstrip s' else s
  end.

Definition rstrip (s : string) : string := rev (lstrip (rev s)).

Definition strip (s : string) : string := rstrip (lstrip s).

(** [s.rfind(c)] for a one-character [c]: the last index, or -1. *)
Fixpoint rfind_from (c : ascii) (s : string) (i best : Z) : Z :=
  match s with
  | EmptyString => best
  | String a s' => rfind_from c s' (i + 1) (if Ascii.eqb a c then i else best)
  end.

Definition rfind (c : ascii) (s : string) : Z := rfind_from c s 0 (-1).

(** [s.replace(old, new)]: the occurrences of [old] are found from the
    left and do not overlap.  [skip] counts the characters of a match
    still to be passed over.  With an empty [old] Python puts [new]
    before every character and at the end. *)
Fixpoint replace_from (old new : string) (skip : nat) (s : string) : string :=
  match s with
  | EmptyString => EmptyString
  | String c s' =>
      match skip with
      | S k => replace_from old new k s'
      | O =>
          if startswith old s
          then new +:+ replace_from old new (String.length old - 1) s'
          else String c (replace_from old new 0 s')
      end
  end.

Fixpoint interleave (new s : string) : string :=
  match s with
  | EmptyString => new
  | String c s' => new +:+ String c (interleave new s')
  end.

Definition replace (old new s : string) : string :=
  match old with
  | EmptyString => interleave new s
  | String _ _ => replace_from old new 0 s
  end.

(** [s.split(sep)] for a non-empty [sep]; [cur] holds the piece being
    read, reversed. *)
Fixpoint split_from (sep : string) (skip : nat) (cur : string) (s : string)
  : list string :=
  match s with
  | EmptyString => [rev cur]
  | String c s' =>
      match skip with
      | S k => split_from sep k cur s'
      | O =>
          if startswith sep s
          then rev cur :: split_from sep (String.length sep - 1) EmptyString s'
          else split_from sep 0 (String c cur) s'
      end
  end.

Definition split (sep s : string) : list string :=
  split_from sep 0 EmptyString s.

End PyStr.

(** ** [os.path.splitext] (POSIX flavour: separator [/], extension mark [.]) *)

Module OsPath.

Definition sep : ascii := "/"%char.
Definition extsep : ascii := "."%char.

(** The [while] loop of [genericpath._splitext]: is there a character
    other than a dot among [p[filenameIndex : filenameIndex + span]]? *)
Fixpoint has_non_dot (p : string) (filenameIndex : nat) (span : nat) : bool :=
  match span with
  | O => false
  | S span' =>
      match String.get filenameIndex p with
      | Some c =>
          if Ascii.eqb c extsep
          then has_non_dot p (S filenameIndex) span'
          else true
      | None => true
      end
  end.

Definition splitext (p : string) : string * string :=
  let sepIndex := PyStr.rfind sep p in
  let dotIndex := PyStr.rfind extsep p in
  if (sepIndex <? dotIndex)
     && has_non_dot p (Z.to_nat (sepIndex + 1))
                      (Z.to_nat (dotIndex - (sepIndex + 1)))
  then (PyStr.take (Z.to_nat dotIndex) p, PyStr.drop (Z.to_nat dotIndex) p)
  else (p, EmptyString).

End OsPath.

(** ** The extension table of [upload_image] *)

Definition mimetypes : gmap string string :=
  {[ ".jpg" := "image/jpeg";
     ".jpeg" := "image/jpeg";
     ".png" := "image/png";
     ".gif" := "image/gif";
     ".webp" := "image/webp" ]}.

(** [ext = os.path.splitext(image_path)[1].lower()] followed by
    [mimetypes.get(ext, 'image/jpeg')]. *)
Definition detect_mimetype (image_path : string) : string :=
  let ext := PyStr.lower (OsPath.splitext image_path).2 in
  default "image/jpeg" (mimetypes !! ext).

(** The table as the specification words it: the lowered extension picks
    the MIME type, and whatever is not listed is a JPEG. *)
Definition mime_of_extension_spec (ext : string) : string :=
  if String.eqb ext ".jpg" then "image/jpeg"
  else if String.eqb ext ".jpeg" then "image/jpeg"
  else if String.eqb ext ".png" then "image/png"
  else if String.eqb ext ".gif" then "image/gif"
  else if String.eqb ext ".webp" then "image/webp"
  else "image/jpeg".

(** ** Values exchanged with the services *)

Inductive json : Type :=
| JNull
| JBool (b : bool)
| JInt (n : Z)
| JFloat (f : spec_float)
| JStr (s : string)
| JArr (l : list json)
| JObj (m : gmap string json).

(** Python's truth value of an object ([if v:]). *)
Definition truthy (v : json) : bool :=
  match v with
  | JNull => false
  | JBool b => b
  | JInt n => negb (n =? 0)
  | JFloat (S754_zero _) => false
  | JFloat _ => true
  | JStr s => negb (String.eqb s EmptyString)
  | JArr l => negb (Nat.eqb (length l) 0)
  | JObj m => negb (Nat.eqb (size m) 0)
  end.

(** [v[key]] for a string [key]; [None] stands for the [KeyError] or
    [TypeError] that Python raises. *)
Definition subscript (v : json) (key : string) : option json :=
  match v with
  | JObj m => m !! key
  | _ => None
  end.

(** ** Clock *)

Record datetime : Type := {
  year : nat; month : nat; day : nat;
  hour : nat; minute : nat; second : nat;
  microsecond : nat
}.

Module Iso.

Definition digit_char (d : nat) : ascii := Ascii.ascii_of_nat (48 + d).

Fixpoint dec_digits (fuel n : nat) (acc : string) : string :=
  match fuel with
  | O => acc
  | S fuel' =>
      let acc' := String (digit_char (n mod 10)) acc in
      if Nat.eqb (n / 10) 0 then acc' else dec_digits fuel' (n / 10)%nat acc'
  end.

(** ["%d" % n] *)
Definition str_of_nat (n : nat) : string := dec_digits (S n) n EmptyString.

Fixpoint zeros (k : nat) : string :=
  match k with
  | O => EmptyString
  | S k' => String "0"%char (zeros k')
  end.

(** ["%0<width>d" % n] *)
Definition pad (width n : nat) : string :=
  let s := str_of_nat n in
  zeros (width - String.length s) +:+ s.

(** The date and time part, ["%04d-%02d-%02dT%02d:%02d:%02d"], followed
    by [".%06d"] when the microseconds are not zero. *)
Definition local_part (d : datetime) : string :=
  pad 4 (year d) +:+ "-" +:+ pad 2 (month d) +:+ "-" +:+ pad 2 (day d)
  +:+ "T" +:+ pad 2 (hour d) +:+ ":" +:+ pad 2 (minute d)
  +:+ ":" +:+ pad 2 (second d)
  +:+ (if Nat.eqb (microsecond d) 0 then EmptyString
       else "." +:+ pad 6 (microsecond d)).

(** [d.isoformat()] for a [d] obtained from [datetime.now(timezone.utc)]:
    the offset of [timezone.utc] is printed as [+00:00]. *)
Definition isoformat (d : datetime) : string := local_part d +:+ "+00:00".

End Iso.

(** ** Requests, responses and the trace of a run *)

(** A header value: a plain string, or the f-string [f'Bearer {tok}']. *)
Inductive hval : Type :=
| HLit (s : string)
| HBearer (tok : json).

(** What [requests.post] is given as [json=] or as [data=]. *)
Inductive body : Type :=
| BodyJson (payload : json)
| BodyData (data : string).

Record request : Type := {
  req_url : string;
  req_headers : gmap string hval;
  req_body : body;
  req_timeout : option nat
}.

(** A response: [resp_json] is what [response.json()] returns, [None]
    when it raises. *)
Record response : Type := {
  status_code : Z;
  resp_text : string;
  resp_json : option json
}.

(** What a call to [requests.post] does: it returns a response or raises. *)
Inductive http_result : Type :=
| Responded (r : response)
| TransportError.

Inductive event : Type :=
| EvRequest (req : request) (res : http_result)
| EvSleep (seconds : nat).

Abbreviation trace := (list event).

Inductive file_state : Type :=
| Missing                     (* [os.path.exists] is false *)
| Unreadable                  (* exists, but [open]/[read] raises *)
| Content (data : string).

Record env : Type := {
  net : trace -> request -> http_result;
  now : trace -> datetime;
  fs : string -> file_state
}.

(** A Python call either returns or lets an exception out. *)
Inductive outcome (A : Type) : Type :=
| Returned (a : A)
| Raised (exc : string).
Arguments Returned {A} a.
Arguments Raised {A} exc.

(** ** [BlueskyPublisher] *)

Record publisher : Type := {
  handle : string;
  app_password : string;
  session : json;               (* [None] until [authenticate] succeeds *)
  did : json;
  api_url : string
}.

(** The [{'uri': ..., 'cid': ...}] dictionary that [create_post] returns. *)
Record record_ref : Type := { uri : json; cid : json }.

Definition ref_json (r : record_ref) : json :=
  JObj {[ "uri" := uri r; "cid" := cid r ]}.

(** The [{'root': {...}, 'parent': {...}}] dictionary of [post_thread]. *)
Definition reply_link (root parent : record_ref) : json :=
  JObj {[ "root" := ref_json root; "parent" := ref_json parent ]}.

(** [_get_headers]; [None] when [self.session["accessJwt"]] raises. *)
Definition _get_headers (self : publisher) : option (gmap string hval) :=
  tok ← subscript (session self) "accessJwt";
  Some {[ "Authorization" := HBearer tok;
          "Content-Type" := HLit "application/json" ]}.

(** [datetime.now(timezone.utc).isoformat().replace('+00:00', 'Z')] *)
Definition created_at (d : datetime) : string :=
  PyStr.replace "+00:00" "Z" (Iso.isoformat d).

Definition image_embed (image_blob : json) : json :=
  JObj {[ "$type" := JStr "app.bsky.embed.images";
          "images" := JArr [JObj {[ "alt" := JStr EmptyString;
                                    "image" := image_blob ]}] ]}.

(** The [record] dictionary built by [create_post] (lines 83-101). *)
Definition post_record (d : datetime) (text : string)
    (reply_to image_blob : json) : gmap string json :=
  let record : gmap string json :=
    {[ "$type" := JStr "app.bsky.feed.post";
       "text" := JStr text;
       "createdAt" := JStr (created_at d) ]} in
  let record :=
    if truthy reply_to then <["reply" := reply_to]> record else record in
  let record :=
    if truthy image_blob then <["embed" := image_embed image_blob]> record
    else record in
  record.

(** What [create_post] makes of the outcome of its request. *)
Definition parse_created (res : http_result) : option record_ref :=
  match res with
  | Responded r =>
      if status_code r =? 200 then
        data ← resp_json r;
        u ← subscript data "uri";
        c ← subscript data "cid";
        Some {| uri := u; cid := c |}
      else None
  | TransportError => None
  end.

(** What [upload_image] makes of the outcome of its request. *)
Definition parse_blob (res : http_result) : json :=
  match res with
  | Responded r =>
      if status_code r =? 200 then
        default JNull (data ← resp_json r; subscript data "blob")
      else JNull
  | TransportError => JNull
  end.

Section Publisher.

Variable E : env.
Variable self : publisher.

Definition create_post (text : string) (reply_to image_blob : json)
    (tr : trace) : option record_ref * trace :=
  let url := api_url self +:+ "/com.atproto.repo.createRecord" in
  let record := post_record (now E tr) text reply_to image_blob in
  let payload :=
    JObj {[ "repo" := did self;
            "collection" := JStr "app.bsky.feed.post";
            "record" := JObj record ]} in
  match _get_headers self with
  | None => (None, tr)
  | Some headers =>
      let req := {| req_url := url; req_headers := headers;
                    req_body := BodyJson payload; req_timeout := None |} in
      let res := net E tr req in
      (parse_created res, tr ++ [EvRequest req res])
  end.

Definition upload_image (image_path : string) (tr : trace) : json * trace :=
  match fs E image_path with
  | Missing => (JNull, tr)
  | Unreadable => (JNull, tr)
  | Content image_data =>
      let url := api_url self +:+ "/com.atproto.repo.uploadBlob" in
      let mimetype := detect_mimetype image_path in
      match subscript (session self) "accessJwt" with
      | None => (JNull, tr)
      | Some tok =>
          let headers : gmap string hval :=
            {[ "Authorization" := HBearer tok;
               "Content-Type" := HLit mimetype ]} in
          let req := {| req_url := url; req_headers := headers;
                        req_body := BodyData image_data;
                        req_timeout := None |} in
          let res := net E tr req in
          (parse_blob res, tr ++ [EvRequest req res])
      end
  end.

(** The [for idx, text in enumerate(posts, 1)] loop of [post_thread];
    [n] is [len(posts)] and [texts] what is left to go through.  A
    [result] that is not [None] is a dictionary of two keys, hence true;
    [posted[0]] is read after the [append], from a list that is not
    empty, so the default of [hd] is never used. *)
Fixpoint post_loop (n idx : nat) (texts : list string)
    (posted : list record_ref) (reply_ref image_blob : json) (tr : trace)
  : list record_ref * trace :=
  match texts with
  | [] => (posted, tr)
  | text :: rest =>
      let img := if Nat.eqb idx 1 then image_blob else JNull in
      let '(result, tr) := create_post text reply_ref img tr in
      match result with
      | Some result =>
          let posted := posted ++ [result] in
          let reply_ref := reply_link (hd result posted) result in
          let tr := if Nat.ltb idx n then tr ++ [EvSleep 2] else tr in
          post_loop n (S idx) rest posted reply_ref image_blob tr
      | None => (posted, tr)
      end
  end.

(** [post_thread].  On the branch [len(posted) == len(posts)] line 189
    evaluates [posted[0]['uri'].split('/')[-1]] before the list is
    returned: [split] exists on a [str] only, so a [uri] of any other
    type lets an [AttributeError] out of the call, after all the posts
    have been created.  The other branch does not read the [uri]. *)
Definition post_thread (posts : list string) (image_path : option string)
    (tr : trace) : outcome (option (list record_ref)) * trace :=
  match posts with
  | [] => (Returned None, tr)
  | _ :: _ =>
      let '(image_blob, tr) :=
        match image_path with
        | Some p =>
            if negb (String.eqb p EmptyString) then upload_image p tr
            else (JNull, tr)
        | None => (JNull, tr)
        end in
      let '(posted, tr) :=
        post_loop (length posts) 1 posts [] JNull image_blob tr in
      if Nat.eqb (length posted) (length posts) then
        match posted with
        | first :: _ =>
            match uri first with
            | JStr _ => (Returned (Some posted), tr)
            | _ => (Raised "AttributeError", tr)
            end
        | [] => (Raised "IndexError", tr)
        end
      else match posted with
           | [] => (Returned None, tr)
           | _ :: _ => (Returned (Some posted), tr)
           end
  end.

End Publisher.

(** ** Reading a trace *)

(** The record-creation requests of a trace, oldest first: the JSON
    payload sent and what came back. *)
Definition create_log (evs : trace) : list (json * http_result) :=
  omap (λ ev, match ev with
              | EvRequest req res =>
                  match req_body req with
                  | BodyJson payload => Some (payload, res)
                  | BodyData _ => None
                  end
              | EvSleep _ => None
              end) evs.

(** The blob uploads of a trace. *)
Definition upload_log (evs : trace) : list (request * http_result) :=
  omap (λ ev, match ev with
              | EvRequest req res =>
                  match req_body req with
                  | BodyData _ => Some (req, res)
                  | BodyJson _ => None
                  end
              | EvSleep _ => None
              end) evs.

(** All the requests of a trace. *)
Definition requests_of (evs : trace) : list request :=
  omap (λ ev, match ev with
              | EvRequest req _ => Some req
              | EvSleep _ => None
              end) evs.

(** A field of the post record inside a record-creation payload. *)
Definition payload_field (field : string) (payload : json) : option json :=
  record ← subscript payload "record"; subscript record field.

(** How many of the logged record creations succeeded. *)
Definition created_count (log : list (json * http_result)) : nat :=
  length (filter (λ e, is_Some (parse_created e.2)) log).

(** ** Sample worlds and a sample publisher *)

Module Fixtures.

Definition noon : datetime :=
  {| year := 2025; month := 12; day := 9;
     hour := 12; minute := 0; second := 5; microsecond := 0 |}.

(** The [at://] address given to the record of the request number [k]. *)
Definition at_uri (k : nat) : string :=
  "at://did:plc:a/app.bsky.feed.post/" +:+ Iso.str_of_nat k.

Definition ok_response (k : nat) : http_result :=
  Responded {| status_code := 200; resp_text := "{}";
               resp_json := Some (JObj {[ "uri" := JStr (at_uri k);
                                          "cid" := JStr "cid";
                                          "blob" := JStr "blob" ]}) |}.

(** A 200 whose [uri] is a number, not a string. *)
Definition odd_response (k : nat) : http_result :=
  Responded {| status_code := 200; resp_text := "{}";
               resp_json := Some (JObj {[ "uri" := JInt (Z.of_nat k);
                                          "cid" := JStr "cid" ]}) |}.

(** Accepts the first [good] requests, then the transport fails. *)
Definition flaky_net (good : nat) (tr : trace) (req : request) : http_result :=
  let k := length (requests_of tr) in
  if Nat.ltb k good then ok_response k else TransportError.

(** Refuses every upload, accepts every record. *)
Definition no_blob_net (tr : trace) (req : request) : http_result :=
  match req_body req with
  | BodyData _ =>
      Responded {| status_code := 500; resp_text := "no"; resp_json := None |}
  | BodyJson _ => ok_response (length (requests_of tr))
  end.

Definition disk (path : string) : file_state :=
  if String.eqb path "a.PNG" then Content "bytes" else Missing.

Definition world (good : nat) : env :=
  {| net := flaky_net good; now := λ _, noon; fs := disk |}.

Definition blobless_world : env :=
  {| net := no_blob_net; now := λ _, noon; fs := disk |}.

(** Refuses every upload, accepts every record with a numeric [uri]. *)
Definition odd_net (tr : trace) (req : request) : http_result :=
  match req_body req with
  | BodyData _ =>
      Responded {| status_code := 500; resp_text := "no"; resp_json := None |}
  | BodyJson _ => odd_response (length (requests_of tr))
  end.

Definition odd_world : env :=
  {| net := odd_net; now := λ _, noon; fs := disk |}.

Definition alice : publisher :=
  {| handle := "alice.bsky.social"; app_password := "pw";
     session := JObj {[ "accessJwt" := JStr "jwt"; "did" := JStr "did:plc:a" ]};
     did := JStr "did:plc:a";
     api_url := "https://bsky.social/xrpc" |}.

Definition post (k : nat) : record_ref :=
  {| uri := JStr (at_uri k); cid := JStr "cid" |}.

Definition odd_post (k : nat) : record_ref :=
  {| uri := JInt (Z.of_nat k); cid := JStr "cid" |}.

End Fixtures.

(** What a run added to the trace it started from. *)
Definition new_events (before after : trace) : trace :=
  drop (length before) after.

(** ** [BlueskyThreadGenerator] *)

Module Re.

Definition newline : ascii := Ascii.ascii_of_nat 10.

Fixpoint skip_spaces (s : string) : string :=
  match s with
  | String c s' => if PyStr.is_space c then skip_spaces s' else s
  | EmptyString => EmptyString
  end.

(** [\d+]: what follows a non-empty run of digits. *)
Fixpoint skip_digits (s : string) : string :=
  match s with
  | String c s' => if PyStr.is_digit c then skip_digits s' else s
  | EmptyString => EmptyString
  end.

Definition digits1 (s : string) : option string :=
  match s with
  | String c s' => if PyStr.is_digit c then Some (skip_digits s') else None
  | EmptyString => None
  end.

(** [\s*\n] at the end of the pattern: the greedy [\s*] gives back
    characters until a line feed follows, so the match stops after the
    last line feed of the run of white space. *)
Fixpoint after_last_newline (s : string) (best : option string)
  : option string :=
  match s with
  | String c s' =>
      if PyStr.is_space c
      then after_last_newline s' (if Ascii.eqb c newline then Some s' else best)
      else best
  | EmptyString => best
  end.

(** One match of [\n\s*\d+/\d+\s*\n] at the head of [s]: what is left
    after it. *)
Definition match_number_line (s : string) : option string :=
  match s with
  | String c s1 =>
      if Ascii.eqb c newline then
        s3 ← digits1 (skip_spaces s1);
        match s3 with
        | String c' s4 =>
            if Ascii.eqb c' "/"%char then
              s5 ← digits1 s4; after_last_newline s5 None
            else None
        | EmptyString => None
        end
      else None
  | EmptyString => None
  end.

(** [re.split(r'\n\s*\d+/\d+\s*\n', s)] *)
Fixpoint split_from (skip : nat) (cur : string) (s : string) : list string :=
  match s with
  | EmptyString => [PyStr.rev cur]
  | String c s' =>
      match skip with
      | S k => split_from k cur s'
      | O =>
          match match_number_line s with
          | Some rest =>
              PyStr.rev cur ::
              split_from (String.length s - String.length rest - 1)
                         EmptyString s'
          | None => split_from 0 (String c cur) s'
          end
      end
  end.

Definition split_number_lines (s : string) : list string :=
  split_from 0 EmptyString s.

End Re.

Definition dq : string := String (Ascii.ascii_of_nat 34) EmptyString.
Definition triple_newline : string :=
  String Re.newline (String Re.newline (String Re.newline EmptyString)).

(** The first loop of [_parse_thread]: one pass over the three prefixes. *)
Definition prefixes : list string :=
  ["Here's the thread:"; "Here are the posts:"; "Thread:"].

Definition strip_prefix (content prefix : string) : string :=
  if PyStr.startswith (PyStr.lower prefix) (PyStr.lower content)
  then PyStr.strip (PyStr.drop (String.length prefix) content)
  else content.

(** The choice of a separator (lines 208-216). *)
Definition split_posts (content : string) : list string :=
  if PyStr.contains "---" content then PyStr.split "---" content
  else if PyStr.contains triple_newline content
       then PyStr.split triple_newline content
       else
         let parts := Re.split_number_lines content in
         PyStr.strip <$>
           filter (λ p, negb (String.eqb (PyStr.strip p) EmptyString)) parts.

(** [post[1:-1]] *)
Definition unquote (post : string) : string :=
  PyStr.take (String.length post - 2) (PyStr.drop 1 post).

(** The cleaning loop (lines 219-227). *)
Fixpoint clean_posts (posts cleaned : list string) : list string :=
  match posts with
  | [] => cleaned
  | post :: rest =>
      let post := PyStr.strip post in
      let post :=
        if PyStr.startswith dq post && PyStr.endswith dq post
        then unquote post else post in
      if negb (String.eqb post EmptyString) && Nat.leb (String.length post) 300
      then clean_posts rest (cleaned ++ [post])
      else clean_posts rest cleaned
  end.

Definition _parse_thread (content : string) : list string :=
  let content := foldl strip_prefix content prefixes in
  clean_posts (split_posts content) [].

Definition _create_thread_prompt (topic : string) : string :=
  "Create an engaging Bluesky thread about: "
    +:+ dq +:+ topic
    +:+ dq +:+ "

**BLUESKY THREAD REQUIREMENTS:**

1. **Thread Structure (5-7 posts):**
   - Post 1: Hook that grabs attention (question, bold claim, story opener)
   - Posts 2-5: Valuable content, insights, tips, or story progression
   - Post 6-7: Strong conclusion + engagement question

2. **Each Post Must:**
   - Be 200-280 characters (Bluesky limit: 300, but 200-280 is optimal)
   - Start strong (no filler words like "
    +:+ dq +:+ "so"
    +:+ dq +:+ ", "
    +:+ dq +:+ "well"
    +:+ dq +:+ ", "
    +:+ dq +:+ "just"
    +:+ dq +:+ ")
   - Use line breaks for readability
   - Feel conversational and authentic
   - Be self-contained (make sense if read alone)

3. **Engagement Tactics:**
   - Use numbers and specifics ("
    +:+ dq +:+ "saved $847"
    +:+ dq +:+ " vs "
    +:+ dq +:+ "saved money"
    +:+ dq +:+ ")
   - Share personal experience or lessons learned
   - Create curiosity gaps ("
    +:+ dq +:+ "Here's what happened next..."
    +:+ dq +:+ ")
   - Ask questions to spark replies
   - Use power words (proven, mistake, secret, transform, realized)
   - Add vulnerability (makes it relatable)

4. **Bluesky Culture:**
   - More conversational than Twitter
   - Less corporate, more authentic
   - Community-focused (not just broadcasting)
   - Thoughtful and substantive (not just hot takes)
   - Supportive tone (Bluesky users value kindness)

5. **Format:**
   - Number each post (1/7, 2/7, etc.)
   - No hashtags (Bluesky doesn't use them much)
   - Emojis okay if natural (1-2 per post max)
   - Use @ mentions sparingly

6. **Content Quality:**
   - Teach something useful
   - Share genuine insights
   - Be specific with examples
   - Show your personality
   - Value > promotion

**OUTPUT FORMAT:**
Return each post separated by "
    +:+ dq +:+ "---"
    +:+ dq +:+ "

Example:
Post 1 text here (1/5)
---
Post 2 text here (2/5)
---
etc.

Write the thread now (5-7 posts):".

Record generator : Type := {
  providers : gmap string string;
  provider_list : list string;
  current_index : nat
}.

Definition groq_url : string := "https://api.groq.com/openai/v1/chat/completions".
Definition groq_model : string := "llama-3.3-70b-versatile".
Definition gemini_url : string :=
  "https://generativelanguage.googleapis.com/v1beta/models/gemini-1.5-flash:generateContent".

(** The float [0.8] in binary64. *)
Definition temperature : json := JFloat (S754_finite false 7205759403792794 (-53)).

(** [v[0]]: lists and non-empty strings have a first element. *)
Definition first_item (v : json) : option json :=
  match v with
  | JArr l => l !! 0%nat
  | JStr (String c _) => Some (JStr (String c EmptyString))
  | _ => None
  end.

(** What the two provider calls make of the outcome of their request;
    [JNull] is Python's [None]. *)
Definition parse_groq (res : http_result) : json :=
  match res with
  | Responded r =>
      if status_code r =? 200 then
        default JNull (data ← resp_json r;
                       choices ← subscript data "choices";
                       choice ← first_item choices;
                       message ← subscript choice "message";
                       subscript message "content")
      else JNull
  | TransportError => JNull
  end.

Definition parse_gemini (res : http_result) : json :=
  match res with
  | Responded r =>
      if status_code r =? 200 then
        default JNull (data ← resp_json r;
                       candidates ← subscript data "candidates";
                       candidate ← first_item candidates;
                       content ← subscript candidate "content";
                       parts ← subscript content "parts";
                       part ← first_item parts;
                       subscript part "text")
      else JNull
  | TransportError => JNull
  end.

Section Generator.

Variable E : env.

Definition _call_groq (self : generator) (prompt : string) (tr : trace)
  : outcome json * trace :=
  match providers self !! "groq" with
  | None => (Raised "KeyError", tr)
  | Some key =>
      let headers : gmap string hval :=
        {[ "Authorization" := HBearer (JStr key);
           "Content-Type" := HLit "application/json" ]} in
      let payload :=
        JObj {[ "model" := JStr groq_model;
                "messages" :=
                  JArr [JObj {[ "role" := JStr "system";
                                "content" := JStr "You are a Bluesky content expert. You understand that Bluesky users value authentic, thoughtful, and substantive content. You create threads that spark genuine conversations and provide real value." ]};
                        JObj {[ "role" := JStr "user";
                                "content" := JStr prompt ]}];
                "temperature" := temperature;
                "max_tokens" := JInt 1000 ]} in
      let req := {| req_url := groq_url; req_headers := headers;
                    req_body := BodyJson payload;
                    req_timeout := Some 30%nat |} in
      let res := net E tr req in
      (Returned (parse_groq res), tr ++ [EvRequest req res])
  end.

Definition _call_gemini (self : generator) (prompt : string) (tr : trace)
  : outcome json * trace :=
  match providers self !! "gemini" with
  | None => (Raised "KeyError", tr)
  | Some key =>
      let url := gemini_url +:+ "?key=" +:+ key in
      let payload :=
        JObj {[ "contents" :=
                  JArr [JObj {[ "parts" :=
                                  JArr [JObj {[ "text" := JStr prompt ]}] ]}];
                "generationConfig" :=
                  JObj {[ "temperature" := temperature;
                          "maxOutputTokens" := JInt 1000 ]} ]} in
      let req := {| req_url := url; req_headers := ∅;
                    req_body := BodyJson payload;
                    req_timeout := Some 30%nat |} in
      let res := net E tr req in
      (Returned (parse_gemini res), tr ++ [EvRequest req res])
  end.

(** The [while] loop of [generate_thread].  [budget] is the number of
    rounds the condition [attempts < retry_count and attempts <
    len(self.provider_list)] still allows; the generator's
    [current_index] is threaded through as [index]. *)
Fixpoint generate_loop (self : generator) (prompt : string) (budget : nat)
    (index : nat) (tr : trace)
  : outcome (option (list string)) * (nat * trace) :=
  match budget with
  | O => (Returned None, (index, tr))
  | S budget' =>
      match provider_list self !! index with
      | None => (Raised "IndexError", (index, tr))
      | Some provider =>
          let '(content, tr) :=
            if String.eqb provider "groq" then _call_groq self prompt tr
            else if String.eqb provider "gemini" then _call_gemini self prompt tr
            else (Returned JNull, tr) in
          let next :=
            generate_loop self prompt budget'
              (S index mod length (provider_list self))%nat
              (tr ++ [EvSleep 1]) in
          match content with
          | Raised exc => (Raised exc, (index, tr))
          | Returned content =>
              if truthy content then
                match content with
                | JStr s =>
                    let posts := _parse_thread s in
                    if negb (Nat.eqb (length posts) 0)
                       && Nat.leb 3 (length posts)
                    then (Returned (Some posts), (index, tr))
                    else next
                | _ => (Raised "AttributeError", (index, tr))
                end
              else next
          end
      end
  end.

Definition generate_thread (self : generator) (topic : string)
    (retry_count : Z) (tr : trace)
  : outcome (option (list string)) * (nat * trace) :=
  let prompt := _create_thread_prompt topic in
  let budget :=
    Z.to_nat (Z.min retry_count (Z.of_nat (length (provider_list self)))) in
  generate_loop self prompt budget (current_index self) tr.

End Generator.

Module GenFixtures.

Definition bot : generator :=
  {| providers := {[ "groq" := "k1"; "gemini" := "k2" ]};
     provider_list := ["groq"; "gemini"];
     current_index := 0 |}.

Definition groq_says (content : json) : http_result :=
  Responded {| status_code := 200; resp_text := "{}";
               resp_json :=
                 Some (JObj {[ "choices" :=
                   JArr [JObj {[ "message" :=
                     JObj {[ "content" := content ]} ]}] ]}) |}.

(** Groq answers with [content]; every other request fails. *)
Definition llm (content : json) : env :=
  {| net := λ _ req, if String.eqb (req_url req) groq_url
                     then groq_says content else TransportError;
     now := λ _, Fixtures.noon;
     fs := λ _, Missing |}.

Definition nl : string := String Re.newline EmptyString.

Definition five_posts : string :=
  "Here's the thread:" +:+ nl +:+ "one (1/5)" +:+ nl +:+ "---" +:+ nl
  +:+ dq +:+ "two" +:+ dq +:+ nl +:+ "---" +:+ nl +:+ "three" +:+ nl
  +:+ "---" +:+ nl +:+ nl +:+ "---" +:+ "five".

Definition numbered : string :=
  "intro" +:+ nl +:+ " 1/3 " +:+ nl +:+ nl +:+ "first" +:+ nl +:+ "2/3"
  +:+ nl +:+ "second" +:+ nl +:+ "3/3" +:+ nl +:+ "  " +:+ nl +:+ "4/3" +:+ nl.

End GenFixtures.

(** ** Vocabulary of the statements *)

(** No character of [s] is [c]. *)
Fixpoint free_of (c : ascii) (s : string) : bool :=
  match s with
  | EmptyString => true
  | String a s' => negb (Ascii.eqb a c) && free_of c s'
  end.

(** The record inside [payload] was built from these arguments of
    [create_post]. *)
Definition carries (payload : json) (text : string)
    (reply_to image_blob : json) : Prop :=
  payload_field "text" payload = Some (JStr text)
  ∧ payload_field "reply" payload
    = (if truthy reply_to then Some reply_to else None)
  ∧ payload_field "embed" payload
    = (if truthy image_blob then Some (image_embed image_blob) else None).

(** The shape of the record creations of one run of the loop of
    [post_thread], started in round [idx] on [texts] with [posted] and
    [reply_ref], and ending with the list [final]: the loop stops on
    the first text whose creation is not sent or does not succeed. *)
Inductive chain (image_blob : json)
  : nat → list string → list record_ref → json
    → list (json * http_result) → list record_ref → Prop :=
| chain_done idx posted reply_ref :
    chain image_blob idx [] posted reply_ref [] posted
| chain_unsent idx text rest posted reply_ref :
    chain image_blob idx (text :: rest) posted reply_ref [] posted
| chain_failed idx text rest posted reply_ref payload res :
    carries payload text reply_ref
            (if Nat.eqb idx 1 then image_blob else JNull) →
    parse_created res = None →
    chain image_blob idx (text :: rest) posted reply_ref [(payload, res)] posted
| chain_posted idx text rest posted reply_ref payload res result log final :
    carries payload text reply_ref
            (if Nat.eqb idx 1 then image_blob else JNull) →
    parse_created res = Some result →
    chain image_blob (S idx) rest (posted ++ [result])
          (reply_link (hd result (posted ++ [result])) result) log final →
    chain image_blob idx (text :: rest) posted reply_ref
          ((payload, res) :: log) final.

(** The image stage of [post_thread] (lines 151-153). *)
Definition image_stage (E : env) (self : publisher)
    (image_path : option string) (tr : trace) : json * trace :=
  match image_path with
  | Some p =>
      if negb (String.eqb p EmptyString) then upload_image E self p tr
      else (JNull, tr)
  | None => (JNull, tr)
  end.

(** The list [posted] of [post_thread] when its loop is over (line 185):
    the references of the posts that were created, in order. *)
Definition thread_posted (E : env) (self : publisher) (posts : list string)
    (image_path : option string) (tr : trace) : list record_ref :=
  let stage := image_stage E self image_path tr in
  (post_loop E self (length posts) 1 posts [] JNull stage.1 stage.2).1.

(** What lines 187-195 of [post_thread] make of the list built by the
    loop, for [n] texts. *)
Definition thread_return (n : nat) (posted : list record_ref)
  : outcome (option (list record_ref)) :=
  if Nat.eqb (length posted) n then
    match posted with
    | first :: _ =>
        match uri first with
        | JStr _ => Returned (Some posted)
        | _ => Raised "AttributeError"
        end
    | [] => Raised "IndexError"
    end
  else match posted with
       | [] => Returned None
       | _ :: _ => Returned (Some posted)
       end.

(** A value that is a Python [str]. *)
Definition is_str (v : json) : Prop := ∃ s, v = JStr s.

(** ** Reading an ISO-8601 time stamp

    The reading of a time stamp of the form
    [YYYY-MM-DDThh:mm:ss[.ffffff]Z]: fields of fixed width, the date
    before the time, the fraction in microseconds, [Z] for UTC.  It is
    written from the format, not from the code that prints. *)
Module Iso8601.

Definition digit (c : ascii) : option nat :=
  let k := nat_of_ascii c in
  if Nat.leb 48 k && Nat.leb k 57 then Some (k - 48)%nat else None.

(** The number that a string of decimal digits writes. *)
Fixpoint number (s : string) : option nat :=
  match s with
  | EmptyString => Some O
  | String c s' =>
      d ← digit c; v ← number s';
      Some (d * 10 ^ String.length s' + v)%nat
  end.

(** The first [width] characters of [s], and what follows them. *)
Fixpoint split_at (width : nat) (s : string) : option (string * string) :=
  match width, s with
  | O, _ => Some (EmptyString, s)
  | S w, String c s' => '(a, b) ← split_at w s'; Some (String c a, b)
  | S _, EmptyString => None
  end.

(** A field of [width] digits at the head of [s]. *)
Definition field (width : nat) (s : string) : option (nat * string) :=
  '(a, b) ← split_at width s; v ← number a; Some (v, b).

(** The separator [c] at the head of [s]. *)
Definition sep (c : ascii) (s : string) : option string :=
  match s with
  | String a s' => if Ascii.eqb a c then Some s' else None
  | EmptyString => None
  end.

Definition utc_time (ts : string) : option datetime :=
  '(y, s) ← field 4 ts; s ← sep "-" s;
  '(mo, s) ← field 2 s; s ← sep "-" s;
  '(d, s) ← field 2 s; s ← sep "T" s;
  '(h, s) ← field 2 s; s ← sep ":" s;
  '(mi, s) ← field 2 s; s ← sep ":" s;
  '(sec, s) ← field 2 s;
  match s with
  | String "." s =>
      '(us, s) ← field 6 s;
      if String.eqb s "Z"
      then Some {| year := y; month := mo; day := d; hour := h;
                   minute := mi; second := sec; microsecond := us |}
      else None
  | _ =>
      if String.eqb s "Z"
      then Some {| year := y; month := mo; day := d; hour := h;
                   minute := mi; second := sec; microsecond := 0 |}
      else None
  end.

End Iso8601.

(** The ranges of the fields of a [datetime] object. *)
Definition valid_datetime (d : datetime) : Prop :=
  (1 ≤ Z.of_nat (year d) ≤ 9999)
  ∧ (1 ≤ Z.of_nat (month d) ≤ 12)
  ∧ (1 ≤ Z.of_nat (day d) ≤ 31)
  ∧ (Z.of_nat (hour d) ≤ 23)
  ∧ (Z.of_nat (minute d) ≤ 59)
  ∧ (Z.of_nat (second d) ≤ 59)
  ∧ (Z.of_nat (microsecond d) ≤ 999999).

(** A generator as [__init__] leaves it and [generate_thread] keeps it. *)
Definition well_formed (self : generator) : Prop :=
  (provider_list self = [] ∨ (current_index self < length (provider_list self))%nat)
  ∧ ∀ provider, provider ∈ provider_list self →
                is_Some (providers self !! provider).

(** The providers answer with a string or with nothing, as the
    annotation [Optional[str]] of the two calls has it. *)
Definition str_or_none (v : json) : Prop :=
  v = JNull ∨ ∃ s, v = JStr s.

Definition answers_text (E : env) : Prop :=
  ∀ tr req, str_or_none (parse_groq (net E tr req))
            ∧ str_or_none (parse_gemini (net E tr req)).

(** The record creations of one call of [post_thread], oldest first. *)
Definition thread_log (E : env) (self : publisher) (posts : list string)
    (image_path : option string) (tr : trace) : list (json * http_result) :=
  create_log (new_events tr (post_thread E self posts image_path tr).2).

(** Looking a literal key up in a dictionary built by insertions. *)
Ltac lookup_literal :=
  repeat (rewrite lookup_insert_ne by done);
  first [ by rewrite lookup_insert_eq
        | by rewrite lookup_singleton_eq
        | by rewrite lookup_singleton_ne
        | by rewrite lookup_empty ].


(** ** [BlueskyPublisher.authenticate] and the constructor *)

Definition with_session (self : publisher) (data : json) : publisher :=
  {| handle := handle self; app_password := app_password self;
     session := data; did := did self; api_url := api_url self |}.

Definition with_did (self : publisher) (d : json) : publisher :=
  {| handle := handle self; app_password := app_password self;
     session := session self; did := d; api_url := api_url self |}.

(** [authenticate] (lines 34-58): what it returns, and the object as it
    leaves it.  [self.session] is assigned before [data['did']] is read. *)
Definition authenticate (E : env) (self : publisher) (tr : trace)
  : bool * publisher * trace :=
  let url := api_url self +:+ "/com.atproto.server.createSession" in
  let payload :=
    JObj {[ "identifier" := JStr (handle self);
            "password" := JStr (app_password self) ]} in
  let req := {| req_url := url; req_headers := ∅;
                req_body := BodyJson payload; req_timeout := None |} in
  let res := net E tr req in
  let tr := tr ++ [EvRequest req res] in
  match res with
  | Responded r =>
      if status_code r =? 200 then
        match resp_json r with
        | Some data =>
            let self := with_session self data in
            match subscript data "did" with
            | Some d => (true, with_did self d, tr)
            | None => (false, self, tr)
            end
        | None => (false, self, tr)
        end
      else (false, self, tr)
  | TransportError => (false, self, tr)
  end.

(** [BlueskyPublisher.__init__]: the answer of [authenticate] is dropped. *)
Definition publisher_init (E : env) (handle app_password : string)
    (tr : trace) : publisher * trace :=
  let self := {| handle := handle; app_password := app_password;
                 session := JNull; did := JNull;
                 api_url := "https://bsky.social/xrpc" |} in
  let '(_, self, tr) := authenticate E self tr in
  (self, tr).

(** The pauses of a trace, oldest first. *)
Definition sleeps_of (evs : trace) : list nat :=
  omap (λ ev, match ev with
              | EvSleep seconds => Some seconds
              | EvRequest _ _ => None
              end) evs.

(** ** [BlueskyThreadGenerator]: constructor and batches *)

(** [BlueskyThreadGenerator.__init__], on the items of the [providers]
    dictionary in their order. *)
Definition generator_init (items : list (string * string)) : generator :=
  {| providers := list_to_map items;
     provider_list := items.*1;
     current_index := 0 |}.

Definition with_index (self : generator) (index : nat) : generator :=
  {| providers := providers self;
     provider_list := provider_list self;
     current_index := index |}.

(** One dictionary of the list that [generate_batch] returns. *)
Record batch_result : Type := {
  br_topic : string;
  br_posts : option (list string);
  br_status : string
}.

(** The loop of [generate_batch] (lines 240-252); [n] is [len(topics)]. *)
Fixpoint generate_batch_loop (E : env) (self : generator) (n idx : nat)
    (topics : list string) (results : list batch_result)
    (index : nat) (tr : trace)
  : outcome (list batch_result) * (nat * trace) :=
  match topics with
  | [] => (Returned results, (index, tr))
  | topic :: rest =>
      match generate_thread E (with_index self index) topic 2 tr with
      | (Raised exc, state) => (Raised exc, state)
      | (Returned posts, (index, tr)) =>
          let status :=
            match posts with
            | Some (_ :: _) => "success"
            | _ => "failed"
            end in
          let results :=
            results ++ [{| br_topic := topic; br_posts := posts;
                           br_status := status |}] in
          let tr := if Nat.ltb idx n then tr ++ [EvSleep 2] else tr in
          generate_batch_loop E self n (S idx) rest results index tr
      end
  end.

Definition generate_batch (E : env) (self : generator) (topics : list string)
    (tr : trace) : outcome (list batch_result) * (nat * trace) :=
  generate_batch_loop E self (length topics) 1 topics [] (current_index self) tr.

(** ** [BlueskyAutomation] *)

(** [v[key]] with the exception Python raises. *)
Definition subscript_exc (v : json) (key : string) : outcome json :=
  match v with
  | JObj m =>
      match m !! key with
      | Some x => Returned x
      | None => Raised "KeyError"
      end
  | _ => Raised "TypeError"
  end.

Fixpoint chars_of (s : string) : list json :=
  match s with
  | EmptyString => []
  | String c s' => JStr (String c EmptyString) :: chars_of s'
  end.

(** [for x in v]: a list gives its elements, a dictionary its keys, a
    string its characters; nothing else can be iterated over. *)
Definition iterate (v : json) : outcome (list json) :=
  match v with
  | JArr l => Returned l
  | JObj m => Returned (JStr <$> (map_to_list m).*1)
  | JStr s => Returned (chars_of s)
  | _ => Raised "TypeError"
  end.

(** [v == s] for a string [s]. *)
Definition eq_str (v : json) (s : string) : bool :=
  match v with
  | JStr s' => String.eqb s' s
  | _ => false
  end.

(** The loop of [get_today_threads] (lines 134-137); [today] is
    [datetime.now().strftime("%Y-%m-%d")]. *)
Fixpoint today_loop (days : list json) (today : string) : outcome json :=
  match days with
  | [] => Returned (JArr [])
  | entry :: rest =>
      match subscript_exc entry "date" with
      | Raised exc => Raised exc
      | Returned date =>
          if eq_str date today then subscript_exc entry "posts"
          else today_loop rest today
      end
  end.

Definition get_today_threads (schedule : json) (today : string)
  : outcome json :=
  match iterate schedule with
  | Raised exc => Raised exc
  | Returned days => today_loop days today
  end.

(** The loop of [get_thread_by_time] (lines 143-146). *)
Fixpoint time_loop (threads : list json) (target_time : string)
  : outcome json :=
  match threads with
  | [] => Returned JNull
  | thread :: rest =>
      match subscript_exc thread "time" with
      | Raised exc => Raised exc
      | Returned time =>
          if eq_str time target_time then Returned thread
          else time_loop rest target_time
      end
  end.

Definition get_thread_by_time (schedule : json) (today target_time : string)
  : outcome json :=
  match get_today_threads schedule today with
  | Raised exc => Raised exc
  | Returned threads =>
      match iterate threads with
      | Raised exc => Raised exc
      | Returned threads => time_loop threads target_time
      end
  end.

(** The two fields that [generate_and_post] reads from [thread_config],
    for an entry whose topic is a string and whose image is a string,
    [None] or absent. *)
Record thread_config : Type := {
  tc_topic : string;
  tc_image : option string
}.

Definition image_json (image : option string) : json :=
  match image with
  | Some p => JStr p
  | None => JNull
  end.

Definition generation_failed (topic : string) : json :=
  JObj {[ "status" := JStr "failed";
          "reason" := JStr "generation_failed";
          "topic" := JStr topic ]}.

Definition posting_failed (topic : string) : json :=
  JObj {[ "status" := JStr "failed";
          "reason" := JStr "posting_failed";
          "topic" := JStr topic ]}.

(** [if image and not os.path.exists(image): image = None] *)
Definition checked_image (E : env) (image : option string) : option string :=
  match image with
  | Some p =>
      if negb (String.eqb p EmptyString)
      then match fs E p with
           | Missing => None
           | _ => image
           end
      else image
  | None => None
  end.

(** [generate_and_post] (lines 148-192).  [local_now] is the clock of
    [datetime.now()], read for the [timestamp] of a success.  The call
    of [post_thread] is not guarded: what it raises goes through. *)
Definition generate_and_post (E : env) (local_now : trace → datetime)
    (gen : generator) (pub : publisher) (config : thread_config) (tr : trace)
  : outcome json * (nat * trace) :=
  let topic := tc_topic config in
  match generate_thread E gen topic 2 tr with
  | (Raised exc, state) => (Raised exc, state)
  | (Returned None, state) | (Returned (Some []), state) =>
      (Returned (generation_failed topic), state)
  | (Returned (Some posts), (index, tr)) =>
      let image := checked_image E (tc_image config) in
      match post_thread E pub posts image tr with
      | (Raised exc, tr) => (Raised exc, (index, tr))
      | (Returned (Some (first :: _)), tr) =>
          (Returned
             (JObj {[ "status" := JStr "success";
                      "topic" := JStr topic;
                      "posts" := JArr (JStr <$> posts);
                      "image" := image_json image;
                      "uri" := uri first;
                      "timestamp" := JStr (Iso.local_part (local_now tr)) ]}),
           (index, tr))
      | (Returned _, tr) => (Returned (posting_failed topic), (index, tr))
      end
  end.

(** ** [setup_bluesky.create_schedule] *)

Definition schedule_topics : list (list string) :=
  [
    ["Why decentralized social media matters";
     "5 things I learned building in public";
     "The future of online communities"];
    ["How I grew my following from 0 to 1000";
     "Common mistakes in content creation";
     "Building authentic connections online"];
    ["My journey learning to code at 30";
     "Productivity systems that actually work";
     "Why consistency beats perfection"];
    ["The art of writing engaging threads";
     "How to find your unique voice online";
     "Lessons from 100 days of posting"];
    ["Understanding web3 and decentralization";
     "My biggest failure and what I learned";
     "How to overcome creative blocks"];
    ["Building a sustainable side hustle";
     "The power of community over followers";
     "Why I left Twitter for Bluesky"];
    ["Tools I use for content creation";
     "How to manage time as a creator";
     "My content strategy for 2025"]
  ].

Definition schedule_times : list string := ["09:00"; "14:00"; "19:00"].

(** The inner loop (lines 52-58): one thread for each time of the day. *)
Fixpoint threads_loop (idx : nat) (times day_topics : list string)
    (threads : list json) : outcome (list json) :=
  match times with
  | [] => Returned threads
  | time :: rest =>
      match day_topics !! idx with
      | None => Raised "IndexError"
      | Some topic =>
          threads_loop (S idx) rest day_topics
            (threads ++ [JObj {[ "time" := JStr time;
                                 "topic" := JStr topic;
                                 "image" := JNull ]}])
      end
  end.

Section CreateSchedule.

(** The calendar: [strptime start_date] is
    [datetime.strptime(start_date, "%Y-%m-%d")], with [None] for its
    [ValueError]; [date_after start k] is
    [(start + timedelta(days=k)).strftime("%Y-%m-%d")], with [None] for
    the [OverflowError] of the sum. *)
Variable strptime : string → option datetime.
Variable date_after : datetime → nat → option string.

(** The outer loop (lines 48-64), for [day] and the [count] days left. *)
Fixpoint schedule_loop (start : datetime) (count day : nat)
    (schedule : list json) : outcome (list json) :=
  match count with
  | O => Returned schedule
  | S count' =>
      match date_after start (day - 1) with
      | None => Raised "OverflowError"
      | Some date =>
          match schedule_topics !! ((day - 1) mod length schedule_topics)%nat with
          | None => Raised "IndexError"
          | Some day_topics =>
              match threads_loop 0 schedule_times day_topics [] with
              | Raised exc => Raised exc
              | Returned threads =>
                  schedule_loop start count' (S day)
                    (schedule ++ [JObj {[ "day" := JInt (Z.of_nat day);
                                          "date" := JStr date;
                                          "threads" := JArr threads ]}])
              end
          end
      end
  end.

Definition create_schedule (start_date : string) (days : Z)
  : outcome (list json) :=
  match strptime start_date with
  | None => Raised "ValueError"
  | Some start => schedule_loop start (Z.to_nat days) 1 []
  end.

End CreateSchedule.

Module AutoFixtures.

(** A calendar that knows December 2025. *)
Definition strptime (s : string) : option datetime :=
  if String.eqb s "2025-12-09"
  then Some {| year := 2025; month := 12; day := 9;
               hour := 0; minute := 0; second := 0; microsecond := 0 |}
  else None.

Definition date_after (start : datetime) (k : nat) : option string :=
  if Nat.eqb (year start) 2025 && Nat.eqb (month start) 12
     && Nat.leb (day start + k) 31
  then Some ("2025-12-" +:+ Iso.pad 2 (day start + k))
  else None.

Definition entry (date topic : string) : json :=
  JObj {[ "date" := JStr date;
          "posts" := JArr [JObj {[ "time" := JStr "09:00";
                                   "topic" := JStr topic ]};
                           JObj {[ "time" := JStr "14:00";
                                   "topic" := JStr (topic +:+ " again") ]}] ]}.

Definition two_days : json :=
  JArr [entry "2025-12-09" "first day"; entry "2025-12-10" "second day"].

Definition five_posts_config : thread_config :=
  {| tc_topic := "topic"; tc_image := Some "missing.png" |}.

(** Groq answers with five posts, Bluesky accepts everything. *)
Definition open_world : env :=
  {| net := λ tr req,
       if String.eqb (req_url req) groq_url
       then GenFixtures.groq_says (JStr GenFixtures.five_posts)
       else Fixtures.ok_response (length (requests_of tr));
     now := λ _, Fixtures.noon;
     fs := Fixtures.disk |}.

(** Groq answers with five posts, Bluesky accepts one record only. *)
Definition one_post_world : env :=
  {| net := λ tr req,
       if String.eqb (req_url req) groq_url
       then GenFixtures.groq_says (JStr GenFixtures.five_posts)
       else if Nat.ltb (length (requests_of tr)) 2
            then Fixtures.ok_response (length (requests_of tr))
            else TransportError;
     now := λ _, Fixtures.noon;
     fs := Fixtures.disk |}.

(** The first request is answered as a login, the others as records. *)
Definition login_response : http_result :=
  Responded {| status_code := 200; resp_text := "{}";
               resp_json := Some (JObj {[ "did" := JStr "did:plc:a";
                                          "accessJwt" := JStr "jwt" ]}) |}.

Definition login_world : env :=
  {| net := λ tr req,
       if Nat.eqb (length (requests_of tr)) 0 then login_response
       else Fixtures.ok_response (length (requests_of tr));
     now := λ _, Fixtures.noon;
     fs := Fixtures.disk |}.

Definition stranger : publisher :=
  {| handle := "alice.bsky.social"; app_password := "pw";
     session := JNull; did := JNull;
     api_url := "https://bsky.social/xrpc" |}.

End AutoFixtures.

(** ** Vocabulary of the further statements *)

(** The requests of a trace with their answers, oldest first. *)
Definition exchanges (evs : trace) : list (request * http_result) :=
  omap (λ ev, match ev with
              | EvRequest req res => Some (req, res)
              | EvSleep _ => None
              end) evs.

(** The events of a thread of [n] texts whose record creations, from
    the one of index [i] on, were these: each creation, and a pause of
    two seconds right after it when it succeeded and was not that of
    the last text. *)
Fixpoint paced (n i : nat) (log : list (request * http_result)) : trace :=
  match log with
  | [] => []
  | (req, res) :: rest =>
      EvRequest req res
      :: match parse_created res with
         | Some _ => if Nat.ltb (S i) n then [EvSleep 2] else []
         | None => []
         end
      ++ paced n (S i) rest
  end.

(** The JSON body of an answer with status 200, if any. *)
Definition json_of_200 (res : http_result) : option json :=
  match res with
  | Responded r => if status_code r =? 200 then resp_json r else None
  | TransportError => None
  end.

(** What the cleaning loop of [_parse_thread] does to one piece, and
    its test for keeping it. *)
Definition normalize_post (post : string) : string :=
  let post := PyStr.strip post in
  if PyStr.startswith dq post && PyStr.endswith dq post
  then unquote post else post.

Definition acceptable (post : string) : bool :=
  negb (String.eqb post EmptyString) && Nat.leb (String.length post) 300.

(** The entry is a dictionary with a [date] other than [today]. *)
Definition other_day (today : string) (entry : json) : Prop :=
  ∃ date, subscript entry "date" = Some date ∧ eq_str date today = false.

(** The thread is a dictionary with a [time] other than [target_time]. *)
Definition other_time (target_time : string) (thread : json) : Prop :=
  ∃ time, subscript thread "time" = Some time ∧ eq_str time target_time = false.

(** Some entry of the list is dated [today]. *)
Definition covers (entries : list json) (today : string) : bool :=
  existsb (λ entry, match subscript entry "date" with
                    | Some date => eq_str date today
                    | None => false
                    end) entries.

(** One entry of the list of [generate_batch] is coherent. *)
Definition batch_result_ok (r : batch_result) : Prop :=
  match br_posts r with
  | Some posts => br_status r = "success" ∧ (3 ≤ length posts)%nat
  | None => br_status r = "failed"
  end.

(** One thread and one day of the list of [create_schedule]. *)
Definition thread_entry (time topic : string) : json :=
  JObj {[ "time" := JStr time; "topic" := JStr topic; "image" := JNull ]}.

Definition day_entry (day : nat) (date : string) (threads : list json) : json :=
  JObj {[ "day" := JInt (Z.of_nat day);
          "date" := JStr date;
          "threads" := JArr threads ]}.

(** The layout that the prompt asks for: the posts, with a line of
    three dashes between two of them. *)
Definition separator_line : string :=
  String Re.newline ("---" +:+ String Re.newline EmptyString).

Fixpoint join_posts (posts : list string) : string :=
  match posts with
  | [] => EmptyString
  | [post] => post
  | post :: rest => post +:+ separator_line +:+ join_posts rest
  end.

(** A post that the cleaning loop leaves as it is: not empty, without
    white space at either end, without three dashes in a row, not
    wrapped in quotes, of at most 300 characters. *)
Definition plain_post (post : string) : Prop :=
  post ≠ EmptyString
  ∧ PyStr.lstrip post = post
  ∧ PyStr.rstrip post = post
  ∧ PyStr.contains "---" post = false
  ∧ PyStr.startswith dq post && PyStr.endswith dq post = false
  ∧ (String.length post ≤ 300)%nat.

(** The content begins with none of the prefixes that the parser
    removes. *)
Definition unprefixed (content : string) : Prop :=
  Forall (λ prefix,
            PyStr.startswith (PyStr.lower prefix) (PyStr.lower content) = false)
    prefixes.

(** The pieces that the split hands to the cleaning loop: a post with
    a line feed before it, after it, on both sides or on none. *)
Definition padded (lead tail : bool) (post : string) : string :=
  (if lead then String Re.newline EmptyString else EmptyString)
  +:+ post
  +:+ (if tail then String Re.newline EmptyString else EmptyString).

Example splitext_photo : OsPath.splitext "pics/Photo.PNG" = ("pics/Photo", ".PNG").
Proof. reflexivity. Qed.
Example splitext_dotfile : OsPath.splitext "pics/.png" = ("pics/.png", EmptyString).
Proof. reflexivity. Qed.
Example splitext_dir_dot : OsPath.splitext "a.b/c" = ("a.b/c", EmptyString).
Proof. reflexivity. Qed.
Example splitext_two : OsPath.splitext "x.tar.gz" = ("x.tar", ".gz").
Proof. reflexivity. Qed.
Example split_dashes : PyStr.split "---" "a------b---" = ["a"; EmptyString; "b"; EmptyString].
Proof. reflexivity. Qed.
Example replace_ex : PyStr.replace "ab" "X" "abab-aab" = "XX-aX".
Proof. reflexivity. Qed.
Example strip_ex : PyStr.strip "  a b
 " = "a b".
Proof. reflexivity. Qed.
Example detect_ex : detect_mimetype "pics/Photo.PNG" = "image/png".
Proof. vm_compute. reflexivity. Qed.

Example scenario_A :
  let r := post_thread (Fixtures.world 9) Fixtures.alice ["a"; "b"; "c"] None [] in
  r.1 = Returned (Some [Fixtures.post 0; Fixtures.post 1; Fixtures.post 2])
  ∧ payload_field "reply" <$> (create_log r.2).*1
    = [None;
       Some (reply_link (Fixtures.post 0) (Fixtures.post 0));
       Some (reply_link (Fixtures.post 0) (Fixtures.post 1))].
Proof. vm_compute. split; reflexivity. Qed.

Example scenario_B :
  let r := post_thread Fixtures.blobless_world Fixtures.alice ["a"; "b"] (Some "a.PNG") [] in
  r.1 = Returned (Some [Fixtures.post 1; Fixtures.post 2])
  ∧ payload_field "embed" <$> (create_log r.2).*1 = [None; None]
  ∧ length (upload_log r.2) = 1%nat.
Proof. vm_compute. repeat split; reflexivity. Qed.

Example scenario_C :
  let r := post_thread (Fixtures.world 1) Fixtures.alice ["a"; "b"; "c"] None [] in
  r.1 = Returned (Some [Fixtures.post 0])
  ∧ payload_field "text" <$> (create_log r.2).*1 = [Some (JStr "a"); Some (JStr "b")].
Proof. vm_compute. split; reflexivity. Qed.

Example scenario_D :
  post_thread (Fixtures.world 9) Fixtures.alice [] (Some "a.PNG") [] = (Returned None, []).
Proof. reflexivity. Qed.

Example scenario_image :
  let r := post_thread (Fixtures.world 9) Fixtures.alice ["a"; "b"] (Some "a.PNG") [] in
  payload_field "embed" <$> (create_log r.2).*1
    = [Some (image_embed (JStr "blob")); None]
  ∧ (λ e, req_headers e.1 !! "Content-Type") <$> upload_log r.2
    = [Some (HLit "image/png")].
Proof. vm_compute. split; reflexivity. Qed.

(** With a [uri] that is not a string: the partial thread is returned,
    the full one is not. *)
Example scenario_odd :
  (post_thread Fixtures.odd_world Fixtures.alice ["a"; "b"] None []).1
  = Raised "AttributeError"
  ∧ thread_posted Fixtures.odd_world Fixtures.alice ["a"; "b"] None []
    = [Fixtures.odd_post 0; Fixtures.odd_post 1].
Proof. vm_compute. split; reflexivity. Qed.

Example post_uri : Fixtures.at_uri 12 = "at://did:plc:a/app.bsky.feed.post/12".
Proof. reflexivity. Qed.

Example read_stamp :
  Iso8601.utc_time "2025-12-09T12:00:05.000250Z"
  = Some {| year := 2025; month := 12; day := 9; hour := 12; minute := 0;
            second := 5; microsecond := 250 |}
  ∧ Iso8601.utc_time "2025-12-09T12:00:05+00:00" = None
  ∧ Iso8601.utc_time "2025-12-9T12:00:05Z" = None.
Proof. vm_compute. repeat split; reflexivity. Qed.

Example created_at_noon : created_at Fixtures.noon = "2025-12-09T12:00:05Z".
Proof. reflexivity. Qed.

Example parse_five :
  _parse_thread GenFixtures.five_posts = ["one (1/5)"; "two"; "three"; "five"].
Proof. vm_compute. reflexivity. Qed.

Example parse_numbered :
  Re.split_number_lines GenFixtures.numbered
  = ["intro"; "first"; "second"; "4/3" +:+ GenFixtures.nl].
Proof. vm_compute. reflexivity. Qed.

Example generate_ok :
  (generate_thread (GenFixtures.llm (JStr GenFixtures.five_posts))
     GenFixtures.bot "topic" 2 []).1
  = Returned (Some ["one (1/5)"; "two"; "three"; "five"]).
Proof. vm_compute. reflexivity. Qed.

Example generate_short :
  (generate_thread (GenFixtures.llm (JStr "a---b")) GenFixtures.bot "topic" 2 []).1
  = Returned None.
Proof. vm_compute. reflexivity. Qed.

(** * Properties *)

(** ** Strings and time stamps *)

Section StringFacts.

Lemma rev_onto_app s t acc :
  PyStr.rev_onto (s +:+ t) acc = PyStr.rev_onto t (PyStr.rev_onto s acc).
Proof.
  revert acc. induction s as [|c s IH]; intros acc; simpl; [done|apply IH].
Qed.

Lemma endswith_last c s :
  PyStr.endswith (String c EmptyString) (s +:+ String c EmptyString) = true.
Proof.
  unfold PyStr.endswith, PyStr.rev. rewrite rev_onto_app. simpl.
  by rewrite Ascii.eqb_refl.
Qed.

Lemma free_of_app c s t :
  free_of c (s +:+ t) = free_of c s && free_of c t.
Proof.
  induction s as [|a s IH]; simpl; [done|]. by rewrite IH, andb_assoc.
Qed.

Lemma free_of_no_match c p s :
  free_of c s = true → PyStr.contains (String c p) s = false.
Proof.
  induction s as [|a s IH]; simpl; [done|].
  intros [Ha Hs]%andb_true_iff. rewrite (IH Hs), orb_false_r.
  rewrite Ascii.eqb_sym. by destruct (Ascii.eqb a c).
Qed.

(** A text without the first character of [old] has no occurrence of
    it; the only replacement happens in what follows. *)
Lemma replace_from_free c old' new s t :
  free_of c s = true →
  PyStr.replace_from (String c old') new 0 (s +:+ t)
  = s +:+ PyStr.replace_from (String c old') new 0 t.
Proof.
  induction s as [|a s IH]; [done|].
  cbn [free_of]. intros [Ha Hs]%andb_true_iff.
  change (String a s +:+ t) with (String a (s +:+ t)).
  cbn [PyStr.replace_from PyStr.startswith].
  rewrite Ascii.eqb_sym. destruct (Ascii.eqb a c); [done|].
  cbn [andb]. by rewrite (IH Hs).
Qed.

Lemma digit_char_not_plus d :
  (d < 10)%nat → Ascii.eqb (Iso.digit_char d) "+"%char = false.
Proof.
  intros Hd. do 10 (destruct d as [|d]; [done|]). lia.
Qed.

Lemma dec_digits_free fuel n acc :
  free_of "+"%char acc = true →
  free_of "+"%char (Iso.dec_digits fuel n acc) = true.
Proof.
  revert n acc. induction fuel as [|fuel IH]; intros n acc Hacc; [done|].
  cbn [Iso.dec_digits].
  assert (free_of "+"%char (String (Iso.digit_char (n mod 10)) acc) = true) as H.
  { cbn [free_of]. rewrite digit_char_not_plus, Hacc; [done|].
    apply Nat.mod_upper_bound. lia. }
  destruct (Nat.eqb (n / 10) 0); [done|]. by apply IH.
Qed.

Lemma zeros_free k : free_of "+"%char (Iso.zeros k) = true.
Proof. induction k as [|k IH]; [done|]. simpl. by rewrite IH. Qed.

Lemma pad_free width n : free_of "+"%char (Iso.pad width n) = true.
Proof.
  unfold Iso.pad, Iso.str_of_nat.
  by rewrite free_of_app, zeros_free, dec_digits_free.
Qed.

Lemma local_part_free d : free_of "+"%char (Iso.local_part d) = true.
Proof.
  unfold Iso.local_part.
  repeat (rewrite free_of_app; apply andb_true_iff; split);
    try apply pad_free; try done.
  destruct (Nat.eqb (microsecond d) 0); [done|].
  rewrite free_of_app, pad_free. done.
Qed.

Lemma created_at_eq d : created_at d = Iso.local_part d +:+ "Z".
Proof.
  unfold created_at, Iso.isoformat, PyStr.replace.
  by rewrite replace_from_free by apply local_part_free.
Qed.

Lemma length_append s t :
  String.length (s +:+ t) = (String.length s + String.length t)%nat.
Proof.
  induction s as [|c s IH]; [done|].
  change (String c s +:+ t) with (String c (s +:+ t)). cbn. by rewrite IH.
Qed.

Lemma dec_digits_width fuel :
  ∀ n acc width,
    (1 ≤ width)%nat → Z.of_nat n < 10 ^ Z.of_nat width →
    (String.length (Iso.dec_digits fuel n acc)
     ≤ String.length acc + width)%nat.
Proof.
  induction fuel as [|fuel IH]; intros n acc width Hwidth Hn; [cbn; lia|].
  cbn [Iso.dec_digits].
  destruct (Nat.eqb_spec (n / 10) 0) as [Hzero|Hmore]; [cbn; lia|].
  destruct width as [|[|width]]; [lia| |].
  - exfalso. apply Hmore. apply Nat.div_small.
    change (10 ^ Z.of_nat 1) with 10 in Hn. lia.
  - etrans; [apply (IH _ _ (S width)); [lia|]|cbn; lia].
    rewrite Nat2Z.inj_div. apply Z.div_lt_upper_bound; [done|].
    rewrite (Nat2Z.inj_succ (S width)), Z.pow_succ_r in Hn by lia. done.
Qed.

Lemma zeros_length k : String.length (Iso.zeros k) = k.
Proof. induction k as [|k IH]; [done|]. cbn. by rewrite IH. Qed.

Lemma pad_width width n :
  (1 ≤ width)%nat → Z.of_nat n < 10 ^ Z.of_nat width →
  String.length (Iso.pad width n) = width.
Proof.
  intros Hwidth Hn. unfold Iso.pad. rewrite length_append, zeros_length.
  pose proof (dec_digits_width (S n) n EmptyString width Hwidth Hn) as Hlen.
  unfold Iso.str_of_nat. cbn [String.length] in Hlen. lia.
Qed.

(** *** Reading back what [Iso] printed *)

Lemma append_cons c s t : String c s +:+ t = String c (s +:+ t).
Proof. done. Qed.

Lemma append_assoc s t u : (s +:+ t) +:+ u = s +:+ (t +:+ u).
Proof.
  induction s as [|c s IH]; [done|]. rewrite !append_cons. by rewrite IH.
Qed.

Lemma digit_of_digit_char d :
  (d < 10)%nat → Iso8601.digit (Iso.digit_char d) = Some d.
Proof.
  intros Hd. do 10 (destruct d as [|d]; [done|]). lia.
Qed.

Lemma number_dec_digits fuel :
  ∀ n acc v,
    (n < fuel)%nat → Iso8601.number acc = Some v →
    Iso8601.number (Iso.dec_digits fuel n acc)
    = Some (n * 10 ^ String.length acc + v)%nat.
Proof.
  induction fuel as [|fuel IH]; intros n acc v Hn Hacc; [lia|].
  cbn [Iso.dec_digits].
  assert (Iso8601.number (String (Iso.digit_char (n mod 10)) acc)
          = Some ((n mod 10) * 10 ^ String.length acc + v)%nat) as Hacc'.
  { cbn [Iso8601.number]. rewrite digit_of_digit_char
      by (apply Nat.mod_upper_bound; lia).
    cbn. by rewrite Hacc. }
  pose proof (Nat.div_mod_eq n 10) as Hdm.
  destruct (Nat.eqb_spec (n / 10) 0) as [Hzero|Hmore].
  - rewrite Hacc'. do 2 f_equal. rewrite Hzero in Hdm. lia.
  - assert (n / 10 < fuel)%nat as Hlt.
    { pose proof (Nat.mod_upper_bound n 10). lia. }
    rewrite (IH _ _ _ Hlt Hacc').
    cbn [String.length]. rewrite Nat.pow_succ_r'. f_equal. nia.
Qed.

Lemma number_zeros k s v :
  Iso8601.number s = Some v → Iso8601.number (Iso.zeros k +:+ s) = Some v.
Proof.
  intros Hs. induction k as [|k IH]; [done|].
  cbn [Iso.zeros]. rewrite append_cons. cbn [Iso8601.number].
  rewrite IH. cbn. done.
Qed.

Lemma number_pad width n : Iso8601.number (Iso.pad width n) = Some n.
Proof.
  unfold Iso.pad. apply number_zeros. unfold Iso.str_of_nat.
  rewrite (number_dec_digits (S n) n EmptyString 0%nat) by (lia || done).
  cbn. f_equal. lia.
Qed.

Lemma split_at_app a b :
  Iso8601.split_at (String.length a) (a +:+ b) = Some (a, b).
Proof.
  induction a as [|c a IH]; [by destruct b|].
  rewrite append_cons. cbn [String.length Iso8601.split_at]. by rewrite IH.
Qed.

(** A field printed with [%0<width>d] is read back as the number. *)
Lemma field_pad width n rest :
  (1 ≤ width)%nat → Z.of_nat n < 10 ^ Z.of_nat width →
  Iso8601.field width (Iso.pad width n +:+ rest) = Some (n, rest).
Proof.
  intros Hwidth Hn. unfold Iso8601.field.
  rewrite <- (pad_width width n Hwidth Hn) at 1.
  rewrite split_at_app. cbn. by rewrite number_pad.
Qed.

Lemma sep_append c rest :
  Iso8601.sep c (String c EmptyString +:+ rest) = Some rest.
Proof.
  rewrite append_cons. change (EmptyString +:+ rest) with rest.
  cbn [Iso8601.sep]. by rewrite Ascii.eqb_refl.
Qed.

(** The time stamp of a post reads back as the date and time that the
    clock gave. *)
Lemma utc_time_created_at d :
  valid_datetime d → Iso8601.utc_time (created_at d) = Some d.
Proof.
  intros (Hy & Hmo & Hd & Hh & Hmi & Hs & Hus).
  rewrite created_at_eq. unfold Iso.local_part.
  rewrite !append_assoc. unfold Iso8601.utc_time.
  assert (∀ n rest, Z.of_nat n ≤ 99 →
            Iso8601.field 2 (Iso.pad 2 n +:+ rest) = Some (n, rest)) as Htwo.
  { intros n rest Hn. apply field_pad; [lia|].
    change (10 ^ Z.of_nat 2) with 100. lia. }
  rewrite field_pad
    by (try (change (10 ^ Z.of_nat 4) with 10000); lia).
  cbn [mbind option_bind].
  rewrite sep_append. cbn [mbind option_bind].
  rewrite Htwo by lia. cbn [mbind option_bind].
  rewrite sep_append. cbn [mbind option_bind].
  rewrite Htwo by lia. cbn [mbind option_bind].
  rewrite sep_append. cbn [mbind option_bind].
  rewrite Htwo by lia. cbn [mbind option_bind].
  rewrite sep_append. cbn [mbind option_bind].
  rewrite Htwo by lia. cbn [mbind option_bind].
  rewrite sep_append. cbn [mbind option_bind].
  rewrite Htwo by lia. cbn [mbind option_bind].
  destruct d as [y mo dd h mi s us]. cbn [microsecond] in *.
  destruct (Nat.eqb_spec us 0) as [->|Hnz].
  - done.
  - rewrite append_assoc, append_cons.
    change (EmptyString +:+ ?x) with x.
    cbn match.
    rewrite field_pad
      by (try (change (10 ^ Z.of_nat 6) with 1000000); lia).
    done.
Qed.

End StringFacts.

(** ** The extension table *)

Lemma mimetypes_get ext :
  default "image/jpeg" (mimetypes !! ext) = mime_of_extension_spec ext.
Proof.
  unfold mimetypes, mime_of_extension_spec.
  destruct (String.eqb_spec ext ".jpg") as [->|?]; [by vm_compute|].
  rewrite lookup_insert_ne by done.
  destruct (String.eqb_spec ext ".jpeg") as [->|?]; [by vm_compute|].
  rewrite lookup_insert_ne by done.
  destruct (String.eqb_spec ext ".png") as [->|?]; [by vm_compute|].
  rewrite lookup_insert_ne by done.
  destruct (String.eqb_spec ext ".gif") as [->|?]; [by vm_compute|].
  rewrite lookup_insert_ne by done.
  destruct (String.eqb_spec ext ".webp") as [->|?]; [by vm_compute|].
  by rewrite lookup_singleton_ne.
Qed.

(** ** Traces *)

Lemma new_events_app tr evs : new_events tr (tr ++ evs) = evs.
Proof. unfold new_events. by rewrite drop_app_length. Qed.

Lemma new_events_same tr : new_events tr tr = [].
Proof. unfold new_events. by rewrite drop_all. Qed.

(** ** [upload_image] *)

(** What [upload_image] adds to the trace: nothing, or its one request. *)
Lemma upload_image_events E self image_path tr :
  (upload_image E self image_path tr = (JNull, tr))
  ∨ ∃ req res,
      upload_image E self image_path tr
        = (parse_blob res, tr ++ [EvRequest req res])
      ∧ req_headers req !! "Content-Type"
        = Some (HLit (detect_mimetype image_path))
      ∧ (∃ data, req_body req = BodyData data).
Proof.
  unfold upload_image.
  destruct (fs E image_path) as [| |data]; [by left..|].
  destruct (subscript (session self) "accessJwt") as [tok|]; [|by left].
  right. eexists _, _. split; [done|]. split; [|by eexists].
  cbn [req_headers]. by rewrite lookup_insert_ne, lookup_singleton_eq by done.
Qed.

(** C7. MIME derivation: the Content-Type of the upload request is read
    off the lowered extension of the image path in the fixed table
    (.jpg and .jpeg give image/jpeg, .png image/png, .gif image/gif,
    .webp image/webp), and every other extension gives image/jpeg. *)
Theorem mime_derivation E self image_path tr :
  detect_mimetype image_path
  = mime_of_extension_spec (PyStr.lower (OsPath.splitext image_path).2)
  ∧ ∀ req,
      req ∈ requests_of (new_events tr (upload_image E self image_path tr).2) →
      req_headers req !! "Content-Type"
      = Some (HLit (mime_of_extension_spec
                      (PyStr.lower (OsPath.splitext image_path).2))).
Proof.
  assert (detect_mimetype image_path
          = mime_of_extension_spec (PyStr.lower (OsPath.splitext image_path).2))
    as Hspec by apply mimetypes_get.
  split; [done|]. intros req.
  destruct (upload_image_events E self image_path tr)
    as [->|(req' & res & -> & Hct & _)]; cbn [snd].
  - rewrite new_events_same. by intros ?%elem_of_nil.
  - rewrite new_events_app. cbn. intros ->%list_elem_of_singleton.
    by rewrite Hct, Hspec.
Qed.

Lemma mime_derivation_witness :
  ∃ req,
    req ∈ requests_of
            (new_events [] (upload_image (Fixtures.world 9) Fixtures.alice
                                         "a.PNG" []).2)
    ∧ req_headers req !! "Content-Type" = Some (HLit "image/png").
Proof.
  eexists. split; [vm_compute; apply list_elem_of_here|].
  refine (proj2 (mime_derivation (Fixtures.world 9) Fixtures.alice "a.PNG" []) _ _).
  vm_compute. apply list_elem_of_here.
Defined.

(** ** [create_post] *)

Lemma post_record_created_at d text reply_to image_blob :
  post_record d text reply_to image_blob !! "createdAt"
  = Some (JStr (created_at d)).
Proof.
  unfold post_record.
  destruct (truthy reply_to), (truthy image_blob);
    lookup_literal.
Qed.

Lemma post_record_text d text reply_to image_blob :
  post_record d text reply_to image_blob !! "text" = Some (JStr text).
Proof.
  unfold post_record.
  destruct (truthy reply_to), (truthy image_blob);
    lookup_literal.
Qed.

Lemma post_record_reply d text reply_to image_blob :
  post_record d text reply_to image_blob !! "reply"
  = if truthy reply_to then Some reply_to else None.
Proof.
  unfold post_record.
  destruct (truthy reply_to), (truthy image_blob);
    lookup_literal.
Qed.

Lemma post_record_embed d text reply_to image_blob :
  post_record d text reply_to image_blob !! "embed"
  = if truthy image_blob then Some (image_embed image_blob) else None.
Proof.
  unfold post_record.
  destruct (truthy reply_to), (truthy image_blob);
    lookup_literal.
Qed.

(** What [create_post] adds to the trace: nothing when the headers
    cannot be built, else its one request, whose outcome decides. *)
Lemma create_post_events E self text reply_to image_blob tr :
  (create_post E self text reply_to image_blob tr = (None, tr))
  ∨ ∃ req res payload,
      create_post E self text reply_to image_blob tr
        = (parse_created res, tr ++ [EvRequest req res])
      ∧ req_body req = BodyJson payload
      ∧ subscript payload "record"
        = Some (JObj (post_record (now E tr) text reply_to image_blob)).
Proof.
  unfold create_post. destruct (_get_headers self) as [headers|]; [|by left].
  right. eexists _, _, _. split; [done|]. split; [done|].
  cbn [subscript]. lookup_literal.
Qed.

(** A string that holds [c] is not free of it. *)
Lemma free_of_occurrence c p a b :
  free_of c (a +:+ String c p +:+ b) = false.
Proof.
  rewrite free_of_app, append_cons. cbn [free_of].
  rewrite Ascii.eqb_refl. cbn. apply andb_false_r.
Qed.

(** C8. Time stamp format: the record that create_post builds carries a
    createdAt field that is the creation time given by the UTC clock,
    written in ISO-8601 (read as YYYY-MM-DDThh:mm:ss[.ffffff]Z it gives
    back the fields of the clock), ending with Z and holding no +00:00;
    a reply link that is supplied is attached as it is, and this record
    is the one sent. *)
Theorem timestamp_and_reply E self text reply_to image_blob tr :
  (∃ ts,
      post_record (now E tr) text reply_to image_blob !! "createdAt"
      = Some (JStr ts)
      ∧ (valid_datetime (now E tr) →
         Iso8601.utc_time ts = Some (now E tr))
      ∧ (∃ body, ts = body +:+ "Z")
      ∧ (∀ before after, ts ≠ before +:+ "+00:00" +:+ after)
      ∧ PyStr.endswith "Z" ts = true
      ∧ PyStr.contains "+00:00" ts = false)
  ∧ (truthy reply_to = true →
     post_record (now E tr) text reply_to image_blob !! "reply" = Some reply_to)
  ∧ Forall (λ sent,
              subscript sent.1 "record"
              = Some (JObj (post_record (now E tr) text reply_to image_blob)))
      (create_log (new_events tr
                     (create_post E self text reply_to image_blob tr).2)).
Proof.
  split; [|split].
  - exists (created_at (now E tr)).
    split; [by rewrite post_record_created_at|].
    split; [apply utc_time_created_at|].
    rewrite created_at_eq.
    assert (free_of "+" (Iso.local_part (now E tr) +:+ "Z") = true) as Hfree.
    { by rewrite free_of_app, local_part_free. }
    split; [by eexists|].
    split; [|split; [apply endswith_last|by apply free_of_no_match]].
    intros before after Heq. rewrite Heq in Hfree.
    by rewrite free_of_occurrence in Hfree.
  - intros Ht. by rewrite post_record_reply, Ht.
  - destruct (create_post_events E self text reply_to image_blob tr)
      as [->|(req & res' & payload' & -> & Hbody & Hrec)]; cbn [snd].
    + rewrite new_events_same. constructor.
    + rewrite new_events_app. cbn. rewrite Hbody. by repeat constructor.
Qed.

Lemma timestamp_and_reply_witness :
  ∃ ts,
    post_record Fixtures.noon "b"
      (reply_link (Fixtures.post 0) (Fixtures.post 0)) JNull !! "createdAt"
    = Some (JStr ts)
    ∧ Iso8601.utc_time ts = Some Fixtures.noon
    ∧ post_record Fixtures.noon "b"
        (reply_link (Fixtures.post 0) (Fixtures.post 0)) JNull !! "reply"
      = Some (reply_link (Fixtures.post 0) (Fixtures.post 0)).
Proof.
  destruct (timestamp_and_reply (Fixtures.world 9) Fixtures.alice
              "b" (reply_link (Fixtures.post 0) (Fixtures.post 0)) JNull [])
    as ((ts & Hts & Hread & _) & Hreply & _).
  exists ts. split; [exact Hts|]. split.
  - apply Hread. vm_compute. repeat split; discriminate.
  - apply Hreply. reflexivity.
Defined.

(** ** The loop of [post_thread] *)

Lemma create_log_app evs evs' :
  create_log (evs ++ evs') = create_log evs ++ create_log evs'.
Proof. apply omap_app. Qed.

Lemma upload_log_app evs evs' :
  upload_log (evs ++ evs') = upload_log evs ++ upload_log evs'.
Proof. apply omap_app. Qed.

Lemma truthy_reply_link root parent : truthy (reply_link root parent) = true.
Proof. done. Qed.

Lemma post_record_carries d text reply_to image_blob payload :
  subscript payload "record"
  = Some (JObj (post_record d text reply_to image_blob)) →
  carries payload text reply_to image_blob.
Proof.
  intros Hrec. unfold carries, payload_field. rewrite Hrec. cbn.
  by rewrite post_record_text, post_record_reply, post_record_embed.
Qed.

(** Every run of the loop is a [chain]. *)
Lemma post_loop_chain E self n image_blob texts :
  ∀ idx posted reply_ref tr,
  ∃ evs,
    (post_loop E self n idx texts posted reply_ref image_blob tr).2 = tr ++ evs
    ∧ upload_log evs = []
    ∧ chain image_blob idx texts posted reply_ref (create_log evs)
        (post_loop E self n idx texts posted reply_ref image_blob tr).1.
Proof.
  induction texts as [|text rest IH]; intros idx posted reply_ref tr.
  - exists []. cbn. rewrite app_nil_r. repeat split. constructor.
  - cbn [post_loop].
    destruct (create_post_events E self text reply_ref
                (if Nat.eqb idx 1 then image_blob else JNull) tr)
      as [->|(req & res & payload & -> & Hbody & Hrec)].
    { exists []. cbn. rewrite app_nil_r. repeat split. constructor. }
    apply post_record_carries in Hrec.
    destruct (parse_created res) as [result|] eqn:Hres.
    + set (tr1 := if Nat.ltb idx n
                  then (tr ++ [EvRequest req res]) ++ [EvSleep 2]
                  else tr ++ [EvRequest req res]).
      assert (∃ pause, tr1 = tr ++ [EvRequest req res] ++ pause
                       ∧ create_log pause = [] ∧ upload_log pause = [])
        as (pause & Htr1 & Hp1 & Hp2).
      { unfold tr1. destruct (Nat.ltb idx n).
        - exists [EvSleep 2]. by rewrite <- app_assoc.
        - exists []. by rewrite app_nil_r. }
      clearbody tr1. subst tr1.
      destruct (IH (S idx) (posted ++ [result])
                  (reply_link (hd result (posted ++ [result])) result)
                  (tr ++ [EvRequest req res] ++ pause))
        as (evs & Htr & Hup & Hchain).
      exists ([EvRequest req res] ++ pause ++ evs).
      rewrite Htr. split; [by rewrite <- !app_assoc|].
      rewrite !upload_log_app, !create_log_app, Hp1, Hp2, Hup.
      cbn. rewrite Hbody. split; [done|].
      by eapply chain_posted.
    + exists [EvRequest req res]. cbn. rewrite Hbody.
      split; [done|]. split; [done|]. by apply chain_failed.
Qed.

Lemma created_count_posted payload res result log :
  parse_created res = Some result →
  created_count ((payload, res) :: log) = S (created_count log).
Proof.
  intros Hres. unfold created_count.
  rewrite filter_cons_True; [done|]. cbn. by rewrite Hres.
Qed.

Lemma created_count_failed payload res log :
  parse_created res = None →
  created_count ((payload, res) :: log) = created_count log.
Proof.
  intros Hres. unfold created_count.
  rewrite filter_cons_False; [done|]. cbn. rewrite Hres. by intros [? ?].
Qed.

(** *** What a chain says *)

Section Chain.

Context {image_blob : json}.

(** The list only grows, by the creations that succeeded; the log has
    one more entry when the last creation sent did not succeed. *)
Lemma chain_extends idx texts posted reply_ref log final :
  chain image_blob idx texts posted reply_ref log final →
  ∃ created,
    final = posted ++ created
    ∧ (length created ≤ length log)%nat
    ∧ (length log ≤ S (length created))%nat
    ∧ (length log ≤ length texts)%nat
    ∧ created_count log = length created
    ∧ ∀ i e, log !! i = Some e → parse_created e.2 = created !! i.
Proof.
  induction 1 as [idx posted reply_ref|idx text rest posted reply_ref
                 |idx text rest posted reply_ref payload res Hc Hres
                 |idx text rest posted reply_ref payload res result log final
                    Hc Hres Hchain (created & -> & Hle & Hge & Hn & Hcount & Hat)].
  - exists []. rewrite app_nil_r. cbn. repeat split; try lia. by intros ? ? ?.
  - exists []. rewrite app_nil_r. cbn. repeat split; try lia. by intros ? ? ?.
  - exists []. rewrite app_nil_r, created_count_failed by done.
    cbn. repeat split; try lia.
    intros [|i] e; cbn; [by intros [= <-]|done].
  - exists (result :: created).
    rewrite <- app_assoc, (created_count_posted _ _ result) by done.
    cbn. repeat split; try lia.
    intros [|i] e; cbn; [by intros [= <-]|apply Hat].
Qed.

Lemma chain_texts idx texts posted reply_ref log final :
  chain image_blob idx texts posted reply_ref log final →
  ∀ i e, log !! i = Some e →
         payload_field "text" e.1 = JStr <$> texts !! i.
Proof.
  induction 1 as [| |? ? ? ? ? ? ? (Ht & _)|? ? ? ? ? ? ? ? ? ? (Ht & _) ? ? IH];
    intros [|i] e; cbn; try done.
  - by intros [= <-].
  - by intros [= <-].
  - apply IH.
Qed.

Lemma chain_embeds idx texts posted reply_ref log final :
  chain image_blob idx texts posted reply_ref log final →
  ∀ i e, log !! i = Some e →
         payload_field "embed" e.1
         = if Nat.eqb (idx + i) 1 && truthy image_blob
           then Some (image_embed image_blob) else None.
Proof.
  induction 1 as [| |idx ? ? ? ? ? ? (_ & _ & He)
                 |idx ? ? ? ? ? ? ? ? ? (_ & _ & He) ? ? IH];
    intros [|i] e; cbn; try done.
  - intros [= <-]. cbn [fst]. rewrite Nat.add_0_r, He.
    by destruct (Nat.eqb idx 1).
  - intros [= <-]. cbn [fst]. rewrite Nat.add_0_r, He.
    by destruct (Nat.eqb idx 1).
  - intros Hi. rewrite (IH _ _ Hi).
    by replace (S idx + i)%nat with (idx + S i)%nat by lia.
Qed.

Lemma hd_app_snoc (posted more : list record_ref) result d :
  hd d ((posted ++ [result]) ++ more) = hd result (posted ++ [result]).
Proof. by destruct posted. Qed.

Lemma chain_replies idx texts posted reply_ref log final :
  chain image_blob idx texts posted reply_ref log final →
  ∀ i e, log !! i = Some e →
    match i with
    | O => payload_field "reply" e.1
           = if truthy reply_ref then Some reply_ref else None
    | S j => ∃ parent,
               final !! (length posted + j)%nat = Some parent
               ∧ payload_field "reply" e.1
                 = Some (reply_link (hd parent final) parent)
    end.
Proof.
  induction 1 as [| |? ? ? ? ? ? ? (_ & Hr & _)
                 |idx text rest posted reply_ref payload res result log final
                    (_ & Hr & _) Hres Hchain IH];
    intros [|i] e; cbn; try done.
  - by intros [= <-].
  - by intros [= <-].
  - intros Hi. specialize (IH _ _ Hi).
    destruct (chain_extends _ _ _ _ _ _ Hchain) as (created & Hfinal & _).
    destruct i as [|j].
    + exists result. rewrite Nat.add_0_r. split.
      * rewrite Hfinal, <- app_assoc. by apply list_lookup_middle.
      * rewrite IH, truthy_reply_link. do 2 f_equal.
        by rewrite Hfinal, hd_app_snoc.
    + destruct IH as (parent & Hp & Hr'). exists parent. split; [|done].
      rewrite length_app in Hp. cbn in Hp.
      by replace (length posted + S j)%nat
        with (length posted + 1 + j)%nat by lia.
Qed.

End Chain.

(** ** [post_thread] *)

Lemma image_stage_events E self image_path tr :
  image_stage E self image_path tr = (JNull, tr)
  ∨ ∃ req res data,
      image_stage E self image_path tr
        = (parse_blob res, tr ++ [EvRequest req res])
      ∧ req_body req = BodyData data.
Proof.
  unfold image_stage. destruct image_path as [p|]; [|by left].
  destruct (negb (String.eqb p EmptyString)); [|by left].
  destruct (upload_image_events E self p tr)
    as [->|(req & res & -> & _ & data & Hdata)]; [by left|].
  right. by exists req, res, data.
Qed.

Lemma post_thread_unfold E self text rest image_path tr :
  post_thread E self (text :: rest) image_path tr
  = (thread_return (length (text :: rest))
       (thread_posted E self (text :: rest) image_path tr),
     (post_loop E self (length (text :: rest)) 1 (text :: rest) [] JNull
          (image_stage E self image_path tr).1
          (image_stage E self image_path tr).2).2).
Proof.
  unfold post_thread, thread_posted, thread_return.
  fold (image_stage E self image_path tr).
  destruct (image_stage E self image_path tr) as [image_blob tr1].
  cbn [fst snd].
  destruct (post_loop E self (length (text :: rest)) 1 (text :: rest) []
              JNull image_blob tr1) as [posted tr2].
  cbn [fst snd].
  destruct (Nat.eqb (length posted) (length (text :: rest)));
    destruct posted as [|first more]; try done.
  by destruct (uri first).
Qed.

(** One call of [post_thread] on a list that is not empty: the image
    stage sends no record, the loop that follows is a [chain] started
    from nothing, and the outcome is read off its final list. *)
Lemma post_thread_run E self posts image_path tr :
  posts ≠ [] →
  ∃ final,
    (post_thread E self posts image_path tr).1
    = thread_return (length posts) final
    ∧ chain (image_stage E self image_path tr).1 1 posts [] JNull
        (thread_log E self posts image_path tr) final
    ∧ final = thread_posted E self posts image_path tr.
Proof.
  destruct posts as [|text rest]; [done|]. intros _.
  unfold thread_log. rewrite post_thread_unfold. cbn [fst snd].
  destruct (post_loop_chain E self (length (text :: rest))
              (image_stage E self image_path tr).1 (text :: rest) 1 [] JNull
              (image_stage E self image_path tr).2)
    as (evs & Htr & _ & Hchain).
  eexists. split; [done|]. split; [|done]. rewrite Htr.
  unfold thread_posted. cbn zeta.
  destruct (image_stage_events E self image_path tr)
    as [Hst|(req & res & data & Hst & Hdata)];
    rewrite Hst in *; cbn [fst snd] in *.
  - by rewrite new_events_app.
  - rewrite <- app_assoc, new_events_app, create_log_app. cbn.
    by rewrite Hdata.
Qed.

Lemma thread_return_default n final r :
  thread_return n final = Returned r → default [] r = final.
Proof.
  unfold thread_return.
  destruct (Nat.eqb (length final) n); destruct final as [|first more];
    try (by intros [= <-]).
  by destruct (uri first); intros [= <-].
Qed.

Lemma thread_return_some n final posted :
  thread_return n final = Returned (Some posted) →
  final = posted ∧ posted ≠ [].
Proof.
  unfold thread_return.
  destruct (Nat.eqb (length final) n); destruct final as [|first more];
    try (by intros [= <-]).
  by destruct (uri first); intros [= <-].
Qed.

Lemma thread_return_none n final :
  thread_return n final = Returned None → final = [].
Proof. intros H. by apply thread_return_default in H. Qed.

(** Fewer posts than texts: the list is returned, or [None] for none. *)
Lemma thread_return_partial n final :
  length final ≠ n →
  thread_return n final
  = Returned match final with [] => None | _ :: _ => Some final end.
Proof.
  intros Hn. unfold thread_return.
  destruct (Nat.eqb_spec (length final) n); [done|]. by destruct final.
Qed.

(** A first [uri] that is a string: the list is returned. *)
Lemma thread_return_str n first more :
  is_str (uri first) →
  thread_return n (first :: more) = Returned (Some (first :: more)).
Proof.
  intros [s Hs]. unfold thread_return. rewrite Hs.
  by destruct (Nat.eqb (length (first :: more)) n).
Qed.

Lemma thread_posted_empty E self image_path tr :
  thread_posted E self [] image_path tr = [].
Proof. done. Qed.

Lemma thread_log_empty E self image_path tr :
  thread_log E self [] image_path tr = [].
Proof. unfold thread_log. cbn. by rewrite new_events_same. Qed.

(** [create_post] of a session that holds a token sends its request. *)
Lemma create_post_sends E self text reply_to image_blob tr headers :
  _get_headers self = Some headers →
  ∃ req payload,
    create_post E self text reply_to image_blob tr
    = (parse_created (net E tr req), tr ++ [EvRequest req (net E tr req)])
    ∧ req_body req = BodyJson payload.
Proof.
  intros Hh. unfold create_post. rewrite Hh. by eexists _, _.
Qed.

(** When the session holds a token and every record creation that the
    loop sent succeeded, the loop went through all its texts. *)
Lemma post_loop_all_succeed E self n image_blob headers texts :
  _get_headers self = Some headers →
  ∀ idx posted reply_ref tr,
    Forall (λ sent, is_Some (parse_created sent.2))
      (create_log (new_events tr
         (post_loop E self n idx texts posted reply_ref image_blob tr).2)) →
    length (post_loop E self n idx texts posted reply_ref image_blob tr).1
    = (length posted + length texts)%nat.
Proof.
  intros Hh.
  induction texts as [|text rest IH]; intros idx posted reply_ref tr Hall.
  { cbn. lia. }
  cbn [post_loop] in *.
  destruct (create_post_sends E self text reply_ref
              (if Nat.eqb idx 1 then image_blob else JNull) tr headers Hh)
    as (req & payload & Hcp & Hbody).
  rewrite Hcp in *.
  destruct (parse_created (net E tr req)) as [result|] eqn:Hres.
  - match goal with
    | |- context [post_loop E self n (S idx) rest ?p ?r image_blob ?t] =>
        specialize (IH (S idx) p r t);
        destruct (post_loop_chain E self n image_blob rest (S idx) p r t)
          as (evs & Htr & _ & _)
    end.
    rewrite Htr in *. rewrite IH; [rewrite length_app; cbn; lia|].
    rewrite new_events_app.
    destruct (Nat.ltb idx n);
      rewrite <- ?app_assoc, new_events_app, !create_log_app in Hall;
      by apply Forall_app in Hall as [_ Hall];
        try apply Forall_app in Hall as [_ Hall].
  - cbn [snd] in Hall. rewrite new_events_app in Hall. cbn in Hall.
    rewrite Hbody in Hall. apply Forall_inv in Hall. cbn in Hall.
    rewrite Hres in Hall. by destruct Hall.
Qed.

(** The embed of the record creation of index [i]. *)
Lemma thread_log_embeds E self posts image_path tr i sent :
  thread_log E self posts image_path tr !! i = Some sent →
  payload_field "embed" sent.1
  = if Nat.eqb (1 + i) 1 && truthy (image_stage E self image_path tr).1
    then Some (image_embed (image_stage E self image_path tr).1)
    else None.
Proof.
  intros Hs. destruct posts as [|text rest].
  { by rewrite thread_log_empty in Hs. }
  destruct (post_thread_run E self (text :: rest) image_path tr)
    as (final & _ & Hchain & _); [done|].
  apply (chain_embeds _ _ _ _ _ _ Hchain _ _ Hs).
Qed.

(** ** The protocol properties *)

(** C1. Reply chain invariant: in a publication that created n >= 2
    posts, the request that created post i, for every i from 1 to n-1,
    carries the reply link {root: {uri, cid}, parent: {uri, cid}} whose
    root holds the uri and cid of post 0 and whose parent holds the uri
    and cid of post i-1; the request that created post 0 carries no
    reply link.  The posts created are the list built by the loop,
    which is the list returned whenever the call returns one. *)
Theorem reply_chain E self posts image_path tr posted :
  thread_posted E self posts image_path tr = posted →
  (2 ≤ length posted)%nat →
  (∀ r, (post_thread E self posts image_path tr).1 = Returned r →
        r = Some posted)
  ∧ (∃ sent,
      thread_log E self posts image_path tr !! 0%nat = Some sent
      ∧ parse_created sent.2 = posted !! 0%nat
      ∧ payload_field "reply" sent.1 = None)
  ∧ ∀ i, (1 ≤ i < length posted)%nat →
      ∃ sent root parent,
        thread_log E self posts image_path tr !! i = Some sent
        ∧ parse_created sent.2 = posted !! i
        ∧ posted !! 0%nat = Some root
        ∧ posted !! (i - 1)%nat = Some parent
        ∧ payload_field "reply" sent.1
          = Some (JObj {[ "root" := JObj {[ "uri" := uri root;
                                            "cid" := cid root ]};
                          "parent" := JObj {[ "uri" := uri parent;
                                              "cid" := cid parent ]} ]}).
Proof.
  intros Hposted Hlen.
  destruct posts as [|text rest].
  { rewrite thread_posted_empty in Hposted. subst posted. cbn in Hlen. lia. }
  destruct (post_thread_run E self (text :: rest) image_path tr)
    as (final & Hret & Hchain & Hfinal'); [done|].
  rewrite Hposted in Hfinal'. subst final.
  destruct (chain_extends _ _ _ _ _ _ Hchain)
    as (created & Hfinal & Hle & _ & _ & _ & Hat).
  cbn in Hfinal. subst created.
  assert (∀ i, (i < length posted)%nat →
               ∃ sent, thread_log E self (text :: rest) image_path tr !! i
                       = Some sent) as Hsent.
  { intros i Hi. apply lookup_lt_is_Some. lia. }
  split; [|split].
  - intros r Hr. rewrite Hr in Hret. symmetry in Hret.
    apply thread_return_default in Hret.
    destruct r as [l|]; cbn in Hret; [by rewrite Hret|].
    rewrite <- Hret in Hlen. cbn in Hlen. lia.
  - destruct (Hsent 0%nat) as [sent Hs]; [lia|]. exists sent.
    split; [done|]. split; [by apply Hat|].
    apply (chain_replies _ _ _ _ _ _ Hchain 0%nat sent Hs).
  - intros i Hi. destruct (Hsent i) as [sent Hs]; [lia|].
    destruct i as [|j]; [lia|].
    destruct (chain_replies _ _ _ _ _ _ Hchain _ _ Hs) as (parent & Hp & Hr).
    cbn in Hp. destruct posted as [|root more]; [cbn in Hlen; lia|].
    exists sent, root, parent. rewrite Nat.sub_succ, Nat.sub_0_r.
    split; [done|]. split; [by apply Hat|]. done.
Qed.

Lemma reply_chain_witness :
  ∃ sent,
    thread_log (Fixtures.world 9) Fixtures.alice ["a"; "b"; "c"] None []
      !! 2%nat = Some sent
    ∧ payload_field "reply" sent.1
      = Some (JObj {[ "root" :=
                        JObj {[ "uri" := JStr (Fixtures.at_uri 0);
                                "cid" := JStr "cid" ]};
                      "parent" :=
                        JObj {[ "uri" := JStr (Fixtures.at_uri 1);
                                "cid" := JStr "cid" ]} ]})
    ∧ (post_thread (Fixtures.world 9) Fixtures.alice ["a"; "b"; "c"]
         None []).1
      = Returned (Some [Fixtures.post 0; Fixtures.post 1; Fixtures.post 2]).
Proof.
  assert (thread_posted (Fixtures.world 9) Fixtures.alice ["a"; "b"; "c"]
            None []
          = [Fixtures.post 0; Fixtures.post 1; Fixtures.post 2]) as Hres.
  { vm_compute. reflexivity. }
  assert (2 ≤ length [Fixtures.post 0; Fixtures.post 1; Fixtures.post 2])%nat
    as Hlen.
  { cbn. lia. }
  destruct (reply_chain _ _ _ _ _ _ Hres Hlen) as (_ & _ & Hlinks).
  destruct (Hlinks 2%nat)
    as (sent & root & parent & Hs & _ & Hroot & Hparent & Hreply).
  { cbn. lia. }
  exists sent. split; [exact Hs|].
  cbn in Hroot, Hparent.
  injection Hroot as <-. injection Hparent as <-.
  split; [exact Hreply|]. vm_compute. reflexivity.
Defined.

(** C2. Prefix-stop: the record creations requested are, in order, for
    an initial run of the texts and at most one more than the posts
    created; the posts created are the answers to the first of them, in
    order; when the creation sent for index k does not succeed, it is
    the last one sent, exactly k posts were created, and the call
    returns them (None standing for none).  Whenever the call returns,
    what it returns is the list of the posts created. *)
Theorem prefix_stop E self posts image_path tr :
  ((length (thread_posted E self posts image_path tr)
    ≤ length (thread_log E self posts image_path tr))%nat
   ∧ (length (thread_log E self posts image_path tr)
      ≤ S (length (thread_posted E self posts image_path tr)))%nat
   ∧ (length (thread_log E self posts image_path tr) ≤ length posts)%nat)
  ∧ (∀ i sent,
       thread_log E self posts image_path tr !! i = Some sent →
       payload_field "text" sent.1 = JStr <$> posts !! i
       ∧ parse_created sent.2
         = thread_posted E self posts image_path tr !! i)
  ∧ (∀ k sent,
       thread_log E self posts image_path tr !! k = Some sent →
       parse_created sent.2 = None →
       length (thread_log E self posts image_path tr) = S k
       ∧ length (thread_posted E self posts image_path tr) = k
       ∧ (k < length posts)%nat
       ∧ ∃ r, (post_thread E self posts image_path tr).1 = Returned r
              ∧ default [] r = thread_posted E self posts image_path tr)
  ∧ (∀ r, (post_thread E self posts image_path tr).1 = Returned r →
          default [] r = thread_posted E self posts image_path tr).
Proof.
  destruct posts as [|text rest].
  { rewrite thread_log_empty, thread_posted_empty. cbn.
    repeat split; try lia; try done. by intros r [= <-]. }
  destruct (post_thread_run E self (text :: rest) image_path tr)
    as (final & Hret & Hchain & Hfinal'); [done|].
  rewrite <- Hfinal'.
  destruct (chain_extends _ _ _ _ _ _ Hchain)
    as (created & Hfinal & Hle & Hge & Hn & _ & Hat).
  cbn in Hfinal. subst created.
  split; [done|]. split; [|split].
  - intros i sent Hs. split; [|by apply Hat].
    apply (chain_texts _ _ _ _ _ _ Hchain _ _ Hs).
  - intros k sent Hs Hfail.
    rewrite (Hat _ _ Hs) in Hfail. apply lookup_ge_None in Hfail.
    apply lookup_lt_Some in Hs.
    assert (length final = k) as Hk by lia.
    split; [lia|]. split; [done|]. split; [lia|].
    rewrite Hret, thread_return_partial by lia.
    eexists. split; [done|]. by destruct final.
  - intros r Hr. rewrite Hr in Hret. symmetry in Hret.
    by apply thread_return_default in Hret.
Qed.

Lemma prefix_stop_witness :
  length (thread_log (Fixtures.world 1) Fixtures.alice ["a"; "b"; "c"] None [])
  = 2%nat
  ∧ length (thread_posted (Fixtures.world 1) Fixtures.alice
              ["a"; "b"; "c"] None []) = 1%nat
  ∧ ∃ r, (post_thread (Fixtures.world 1) Fixtures.alice
            ["a"; "b"; "c"] None []).1 = Returned r
         ∧ default [] r
           = thread_posted (Fixtures.world 1) Fixtures.alice
               ["a"; "b"; "c"] None [].
Proof.
  assert (∃ sent,
            thread_log (Fixtures.world 1) Fixtures.alice ["a"; "b"; "c"] None []
              !! 1%nat = Some sent
            ∧ parse_created sent.2 = None) as (sent & Hs & Hfail).
  { eexists. split; vm_compute; reflexivity. }
  destruct (proj1 (proj2 (proj2 (prefix_stop (Fixtures.world 1) Fixtures.alice
                            ["a"; "b"; "c"] None []))) 1%nat sent Hs Hfail)
    as (Hlog & Hposted & _ & Hret).
  split; [exact Hlog|]. split; [exact Hposted|exact Hret].
Defined.

(** C3. Image-only-first: no record creation of index i > 0 carries an
    image embed; the one of index 0 carries the blob that the image
    stage obtained, when there is one. *)
Theorem image_only_first E self posts image_path tr i sent :
  thread_log E self posts image_path tr !! i = Some sent →
  ((0 < i)%nat → payload_field "embed" sent.1 = None)
  ∧ (i = 0%nat →
     payload_field "embed" sent.1
     = if truthy (image_stage E self image_path tr).1
       then Some (image_embed (image_stage E self image_path tr).1)
       else None).
Proof.
  intros Hs. rewrite (thread_log_embeds _ _ _ _ _ _ _ Hs).
  split.
  - intros Hi. by destruct i as [|i]; [lia|].
  - by intros ->.
Qed.

Lemma image_only_first_witness :
  ∃ sent,
    thread_log (Fixtures.world 9) Fixtures.alice ["a"; "b"] (Some "a.PNG") []
      !! 1%nat = Some sent
    ∧ payload_field "embed" sent.1 = None.
Proof.
  assert (∃ sent,
            thread_log (Fixtures.world 9) Fixtures.alice ["a"; "b"]
              (Some "a.PNG") [] !! 1%nat = Some sent) as (sent & Hs).
  { eexists. vm_compute. reflexivity. }
  exists sent. split; [exact Hs|].
  apply (proj1 (image_only_first _ _ _ _ _ _ _ Hs)). lia.
Defined.

(** C4 as stated does not hold: the value returned for an empty list of
    texts is the value returned when the first creation of a list that
    is not empty does not go through, so it is no failure of its own. *)
Lemma empty_thread_not_distinct :
  ¬ (∀ E self posts image_path tr,
       posts ≠ [] →
       (post_thread E self posts image_path tr).1
       ≠ (post_thread E self [] image_path tr).1).
Proof.
  intros Hdistinct.
  apply (Hdistinct (Fixtures.world 0) Fixtures.alice ["a"] None []); [done|].
  vm_compute. reflexivity.
Qed.

(** C4, amended. Empty-thread rejection: called with an empty list of
    texts, post_thread returns None at once; the trace is the one it was
    given, so no request was sent, neither a record creation nor an
    image upload. *)
Theorem empty_thread_rejected E self image_path tr :
  post_thread E self [] image_path tr = (Returned None, tr)
  ∧ requests_of (new_events tr (post_thread E self [] image_path tr).2) = [].
Proof. split; [done|]. cbn. by rewrite new_events_same. Qed.

(** When the image stage gives no blob, the first record creation has
    no embed. *)
Lemma blobless_first_post E self posts path tr sent :
  (upload_image E self path tr).1 = JNull →
  thread_log E self posts (Some path) tr !! 0%nat = Some sent →
  payload_field "embed" sent.1 = None.
Proof.
  intros Hup Hs.
  assert ((image_stage E self (Some path) tr).1 = JNull) as Hblob.
  { unfold image_stage. by destruct (negb (String.eqb path EmptyString)). }
  by rewrite (thread_log_embeds _ _ _ _ _ _ _ Hs), Hblob.
Qed.

(** When the session holds a token and every record creation sent in
    the run succeeded, there is a post for each text. *)
Lemma thread_posted_full E self posts image_path tr :
  is_Some (_get_headers self) →
  Forall (λ sent, is_Some (parse_created sent.2))
    (thread_log E self posts image_path tr) →
  length (thread_posted E self posts image_path tr) = length posts.
Proof.
  intros [headers Hh] Hall. destruct posts as [|text rest]; [done|].
  unfold thread_posted. cbn zeta.
  rewrite (post_loop_all_succeed _ _ _ _ headers) ; [done|done|].
  unfold thread_log in Hall. rewrite post_thread_unfold in Hall.
  cbn [snd] in Hall.
  destruct (post_loop_chain E self (length (text :: rest))
              (image_stage E self image_path tr).1 (text :: rest) 1 [] JNull
              (image_stage E self image_path tr).2)
    as (evs & Htr & _ & _).
  rewrite Htr in *. rewrite new_events_app.
  destruct (image_stage_events E self image_path tr)
    as [Hst|(req & res & data & Hst & Hdata)];
    rewrite Hst in *; cbn [fst snd] in *.
  - by rewrite new_events_app in Hall.
  - rewrite <- app_assoc, new_events_app, create_log_app in Hall.
    cbn in Hall. by rewrite Hdata in Hall.
Qed.


(** C6 as stated does not hold: when the only creation fails, the value
    returned is None and not a list of length 0. *)
Lemma total_failure_is_none :
  (post_thread (Fixtures.world 0) Fixtures.alice ["a"] None []).1
  = Returned None
  ∧ ¬ ∃ posted,
      (post_thread (Fixtures.world 0) Fixtures.alice ["a"] None []).1
      = Returned (Some posted)
      ∧ length posted
        = created_count (thread_log (Fixtures.world 0) Fixtures.alice
                           ["a"] None []).
Proof.
  split; [vm_compute; reflexivity|].
  intros (posted & Hres & _). vm_compute in Hres. discriminate.
Qed.

(** C6, amended. What post_thread returns, whenever it returns: either
    a list that is not empty, whose length is the number of posts
    created (all the texts on full success, fewer on partial failure),
    or None when no post was created.  It does return when there is
    no text, when fewer posts than texts were created, and when the uri
    of the first post is a string. *)
Theorem thread_result_reports E self posts image_path tr :
  (∀ posted,
     (post_thread E self posts image_path tr).1 = Returned (Some posted) →
     posted ≠ []
     ∧ length posted
       = created_count (thread_log E self posts image_path tr)
     ∧ (length posted ≤ length posts)%nat)
  ∧ ((post_thread E self posts image_path tr).1 = Returned None →
     created_count (thread_log E self posts image_path tr) = 0%nat)
  ∧ (posts = []
     ∨ (created_count (thread_log E self posts image_path tr)
        < length posts)%nat
     ∨ (∃ first, thread_posted E self posts image_path tr !! 0%nat
                 = Some first ∧ is_str (uri first)) →
     ∃ r, (post_thread E self posts image_path tr).1 = Returned r).
Proof.
  destruct posts as [|text rest].
  { rewrite thread_log_empty. cbn. split; [done|]. split; [done|].
    intros _. by eexists. }
  destruct (post_thread_run E self (text :: rest) image_path tr)
    as (final & -> & Hchain & <-); [done|].
  destruct (chain_extends _ _ _ _ _ _ Hchain)
    as (created & Hfinal & Hle & _ & Hn & Hcount & _).
  cbn in Hfinal. subst created. rewrite Hcount.
  split; [|split].
  - intros posted [-> Hne]%thread_return_some. repeat split; [done|lia].
  - by intros ->%thread_return_none.
  - intros [?|[Hlt|(first & Hfirst & Hstr)]]; [done| |].
    + rewrite thread_return_partial by lia. by eexists.
    + destruct final as [|first' more]; [done|].
      cbn in Hfirst. injection Hfirst as ->.
      rewrite thread_return_str by done. by eexists.
Qed.

Lemma thread_result_reports_witness :
  length [Fixtures.post 0]
  = created_count (thread_log (Fixtures.world 1) Fixtures.alice
                     ["a"; "b"; "c"] None [])
  ∧ ∃ r, (post_thread (Fixtures.world 9) Fixtures.alice
            ["a"; "b"] None []).1 = Returned r.
Proof.
  split.
  - apply (proj1 (thread_result_reports (Fixtures.world 1) Fixtures.alice
                    ["a"; "b"; "c"] None []) [Fixtures.post 0]).
    vm_compute. reflexivity.
  - apply (proj2 (proj2 (thread_result_reports (Fixtures.world 9)
                           Fixtures.alice ["a"; "b"] None []))).
    right. right. exists (Fixtures.post 0). split; [vm_compute; reflexivity|].
    by eexists.
Defined.

(** ** The thread generator *)

(** The cleaning loop only adds posts that pass its test. *)
Lemma clean_posts_bounds posts :
  ∀ cleaned,
    Forall (λ post, post ≠ EmptyString ∧ (String.length post ≤ 300)%nat) cleaned →
    Forall (λ post, post ≠ EmptyString ∧ (String.length post ≤ 300)%nat)
      (clean_posts posts cleaned).
Proof.
  induction posts as [|post rest IH]; intros cleaned Hcleaned; [done|].
  cbn [clean_posts].
  set (post' := if PyStr.startswith dq (PyStr.strip post)
                   && PyStr.endswith dq (PyStr.strip post)
                then unquote (PyStr.strip post) else PyStr.strip post).
  destruct (negb (String.eqb post' EmptyString)
            && Nat.leb (String.length post') 300) eqn:Htest; [|by apply IH].
  apply andb_true_iff in Htest as [Hne Hlen].
  apply IH, Forall_app. split; [done|]. constructor; [|done]. split.
  - apply negb_true_iff in Hne. by apply String.eqb_neq.
  - by apply Nat.leb_le.
Qed.

(** C9. Bounds on what the parser returns: every string of the list
    returned by _parse_thread is non-empty and has at most 300
    characters, whatever the content given. *)
Theorem parse_thread_bounds content :
  Forall (λ post, post ≠ EmptyString ∧ (String.length post ≤ 300)%nat)
    (_parse_thread content).
Proof. unfold _parse_thread. by apply clean_posts_bounds. Qed.

Section GenerateThread.

Variable E : env.
Variable self : generator.
Variable prompt : string.

Lemma call_groq_returns tr :
  is_Some (providers self !! "groq") →
  ∃ res req,
    _call_groq E self prompt tr
    = (Returned (parse_groq res), tr ++ [EvRequest req res])
    ∧ res = net E tr req.
Proof.
  intros [key Hkey]. unfold _call_groq. rewrite Hkey. by eexists _, _.
Qed.

Lemma call_gemini_returns tr :
  is_Some (providers self !! "gemini") →
  ∃ res req,
    _call_gemini E self prompt tr
    = (Returned (parse_gemini res), tr ++ [EvRequest req res])
    ∧ res = net E tr req.
Proof.
  intros [key Hkey]. unfold _call_gemini. rewrite Hkey. by eexists _, _.
Qed.

(** A list that the loop returns has passed the test of line 188. *)
Lemma generate_loop_min_size budget :
  ∀ index tr posts,
    (generate_loop E self prompt budget index tr).1 = Returned (Some posts) →
    (3 ≤ length posts)%nat.
Proof.
  induction budget as [|budget IH]; intros index tr posts; [done|].
  cbn [generate_loop].
  destruct (provider_list self !! index) as [provider|]; [|done].
  destruct (if String.eqb provider "groq" then _call_groq E self prompt tr
            else if String.eqb provider "gemini"
                 then _call_gemini E self prompt tr
                 else (Returned JNull, tr)) as [[content|exc] tr1]; [|done].
  destruct (truthy content); [|apply IH].
  destruct content as [| | | |s| |]; try done.
  destruct (negb (Nat.eqb (length (_parse_thread s)) 0)
            && Nat.leb 3 (length (_parse_thread s))) eqn:Htest; [|apply IH].
  cbn. intros [= <-].
  apply andb_true_iff in Htest as [_ Hlen]. by apply Nat.leb_le.
Qed.

(** With keys for the listed providers and with answers that are
    strings or nothing, no exception comes out of the loop. *)
Lemma generate_loop_returns budget :
  (∀ provider, provider ∈ provider_list self →
               is_Some (providers self !! provider)) →
  answers_text E →
  ∀ index tr,
    (index < length (provider_list self))%nat →
    ∃ r, (generate_loop E self prompt budget index tr).1 = Returned r.
Proof.
  intros Hkeys Hans.
  induction budget as [|budget IH]; intros index tr Hindex; [by eexists|].
  cbn [generate_loop].
  destruct (lookup_lt_is_Some_2 _ _ Hindex) as [provider Hp]. rewrite Hp.
  assert (S index mod length (provider_list self)
          < length (provider_list self))%nat as Hnext.
  { apply Nat.mod_upper_bound. lia. }
  assert (∃ content tr1,
            (if String.eqb provider "groq" then _call_groq E self prompt tr
             else if String.eqb provider "gemini"
                  then _call_gemini E self prompt tr
                  else (Returned JNull, tr)) = (Returned content, tr1)
            ∧ str_or_none content) as (content & tr1 & -> & Hcontent).
  { assert (is_Some (providers self !! provider)) as Hkey.
    { apply Hkeys. by eapply list_elem_of_lookup_2. }
    destruct (String.eqb_spec provider "groq") as [->|_].
    - destruct (call_groq_returns tr Hkey) as (res & req & -> & ->).
      eexists _, _. split; [done|]. apply Hans.
    - destruct (String.eqb_spec provider "gemini") as [->|_].
      + destruct (call_gemini_returns tr Hkey) as (res & req & -> & ->).
        eexists _, _. split; [done|]. apply Hans.
      + eexists _, _. split; [done|]. by left. }
  destruct Hcontent as [->|[s ->]]; [by apply IH|].
  destruct (truthy (JStr s)); [|by apply IH].
  destruct (negb (Nat.eqb (length (_parse_thread s)) 0)
            && Nat.leb 3 (length (_parse_thread s))); [by eexists|by apply IH].
Qed.

End GenerateThread.

(** C10. Minimum thread size: a list that generate_thread returns has at
    least 3 posts; and for a generator as the constructor leaves it,
    with providers that answer with a string or with nothing, it does
    return, either None or such a list. *)
Theorem generate_thread_min_size E self topic retry_count tr :
  (∀ posts,
     (generate_thread E self topic retry_count tr).1 = Returned (Some posts) →
     (3 ≤ length posts)%nat)
  ∧ (well_formed self → answers_text E →
     ∃ r,
       (generate_thread E self topic retry_count tr).1 = Returned r
       ∧ (r = None ∨ ∃ posts, r = Some posts ∧ (3 ≤ length posts)%nat)).
Proof.
  split; [intros posts; apply generate_loop_min_size|].
  intros [Hindex Hkeys] Hans.
  assert (∃ r, (generate_thread E self topic retry_count tr).1 = Returned r)
    as [r Hr].
  { unfold generate_thread. destruct Hindex as [Hnil|Hindex].
    - rewrite Hnil. cbn [length].
      replace (Z.to_nat (Z.min retry_count (Z.of_nat 0))) with 0%nat by lia.
      by eexists.
    - by apply generate_loop_returns. }
  exists r. split; [done|].
  destruct r as [posts|]; [right|by left].
  exists posts. split; [done|].
  by eapply generate_loop_min_size.
Qed.

Lemma bot_well_formed : well_formed GenFixtures.bot.
Proof.
  split; [right; cbn; lia|].
  intros provider Hp. apply list_elem_of_In in Hp. cbn in Hp.
  destruct Hp as [<-|[<-|[]]]; by eexists.
Qed.

Lemma llm_answers_text s : answers_text (GenFixtures.llm (JStr s)).
Proof.
  intros tr req. cbn.
  destruct (String.eqb (req_url req) groq_url); split;
    first [by left | right; by eexists].
Qed.

Lemma generate_thread_min_size_witness :
  (3 ≤ length ["one (1/5)"; "two"; "three"; "five"])%nat
  ∧ ∃ r,
      (generate_thread (GenFixtures.llm (JStr GenFixtures.five_posts))
         GenFixtures.bot "topic" 2 []).1 = Returned r.
Proof.
  pose proof (generate_thread_min_size
                (GenFixtures.llm (JStr GenFixtures.five_posts))
                GenFixtures.bot "topic" 2 []) as [Hmin Hret].
  split.
  - apply Hmin. vm_compute. reflexivity.
  - destruct (Hret bot_well_formed (llm_answers_text _)) as (r & Hr & _).
    exists r. exact Hr.
Defined.

(** * Further properties *)

(** ** Logging in *)

(** X1. When authenticate returns True, the one request it sent was
    answered with status 200 and a JSON body that has a did; the object
    then holds this body as its session and this did as its did. *)
Theorem authenticate_success E self tr :
  (authenticate E self tr).1.1 = true →
  ∃ req res data,
    (authenticate E self tr).2 = tr ++ [EvRequest req res]
    ∧ res = net E tr req
    ∧ req_body req
      = BodyJson (JObj {[ "identifier" := JStr (handle self);
                          "password" := JStr (app_password self) ]})
    ∧ json_of_200 res = Some data
    ∧ session (authenticate E self tr).1.2 = data
    ∧ subscript data "did" = Some (did (authenticate E self tr).1.2).
Proof.
  unfold authenticate.
  set (req := {| req_url := _; req_headers := _; req_body := _;
                 req_timeout := _ |}).
  intros Hok. exists req, (net E tr req).
  destruct (net E tr req) as [r|] eqn:Hnet; [|done]. cbn [json_of_200].
  destruct (status_code r =? 200); [|done].
  destruct (resp_json r) as [data|]; [|done].
  destruct (subscript data "did") as [d|] eqn:Hdid; [|done].
  by exists data.
Qed.

Lemma authenticate_success_witness :
  ∃ data,
    session (authenticate AutoFixtures.login_world AutoFixtures.stranger []).1.2
    = data
    ∧ subscript data "did" = Some (JStr "did:plc:a").
Proof.
  destruct (authenticate_success AutoFixtures.login_world
              AutoFixtures.stranger [] eq_refl)
    as (req & res & data & _ & _ & _ & _ & Hsession & Hdid).
  exists data. split; [exact Hsession|]. rewrite Hdid. reflexivity.
Defined.

(** X2. When authenticate returns False, the did of the object is what
    it was; so is the session, unless the answer was a 200 with a JSON
    body without did, in which case that body has replaced the
    session. *)
Theorem authenticate_failure E self tr :
  (authenticate E self tr).1.1 = false →
  did (authenticate E self tr).1.2 = did self
  ∧ (session (authenticate E self tr).1.2 = session self
     ∨ ∃ req data,
         json_of_200 (net E tr req) = Some data
         ∧ (authenticate E self tr).2 = tr ++ [EvRequest req (net E tr req)]
         ∧ subscript data "did" = None
         ∧ session (authenticate E self tr).1.2 = data).
Proof.
  unfold authenticate.
  set (req := {| req_url := _; req_headers := _; req_body := _;
                 req_timeout := _ |}).
  intros Hko. destruct (net E tr req) as [r|] eqn:Hnet; [|by split; [|left]].
  destruct (status_code r =? 200) eqn:Hstatus; [|by split; [|left]].
  destruct (resp_json r) as [data|] eqn:Hjson; [|by split; [|left]].
  destruct (subscript data "did") as [d|] eqn:Hdid; [done|].
  split; [done|]. right. exists req, data.
  rewrite Hnet. cbn. by rewrite Hstatus, Hjson.
Qed.

Lemma authenticate_failure_witness :
  did (authenticate (Fixtures.world 9) AutoFixtures.stranger []).1.2 = JNull
  ∧ is_Some (subscript
               (session (authenticate (Fixtures.world 9)
                           AutoFixtures.stranger []).1.2) "uri").
Proof.
  destruct (authenticate_failure (Fixtures.world 9) AutoFixtures.stranger []
              eq_refl) as [Hdid _].
  split; [exact Hdid|]. vm_compute. eexists. reflexivity.
Defined.

(** ** A publisher without a token *)

Lemma create_post_without_token E self text reply_to image_blob tr :
  subscript (session self) "accessJwt" = None →
  create_post E self text reply_to image_blob tr = (None, tr).
Proof. intros Hno. unfold create_post, _get_headers. by rewrite Hno. Qed.

Lemma upload_image_without_token E self image_path tr :
  subscript (session self) "accessJwt" = None →
  upload_image E self image_path tr = (JNull, tr).
Proof.
  intros Hno. unfold upload_image. rewrite Hno.
  by destruct (fs E image_path).
Qed.

Lemma post_thread_without_token E self posts image_path tr :
  subscript (session self) "accessJwt" = None →
  post_thread E self posts image_path tr = (Returned None, tr).
Proof.
  intros Hno. destruct posts as [|text rest]; [done|].
  rewrite post_thread_unfold. unfold thread_posted. cbn zeta.
  assert (image_stage E self image_path tr = (JNull, tr)) as ->.
  { unfold image_stage. destruct image_path as [p|]; [|done].
    destruct (negb (String.eqb p EmptyString)); [|done].
    by apply upload_image_without_token. }
  cbn [fst snd post_loop]. by rewrite create_post_without_token.
Qed.

(** X3. A publisher whose session holds no access token (none was ever
    obtained, or the login answer had none) sends nothing: post_thread
    returns None and leaves the trace as it found it, whatever the
    texts and the image. *)
Theorem silent_without_token E self posts image_path tr :
  subscript (session self) "accessJwt" = None →
  post_thread E self posts image_path tr = (Returned None, tr)
  ∧ requests_of (new_events tr (post_thread E self posts image_path tr).2) = [].
Proof.
  intros Hno. rewrite post_thread_without_token by done.
  split; [done|]. cbn. by rewrite new_events_same.
Qed.

Lemma silent_without_token_witness :
  post_thread (Fixtures.world 9) AutoFixtures.stranger ["a"; "b"]
    (Some "a.PNG") [] = (Returned None, []).
Proof.
  apply (silent_without_token (Fixtures.world 9) AutoFixtures.stranger).
  reflexivity.
Defined.

(** X4. The constructor always gives an object back; when its login
    request was not answered by a 200 with a JSON body, the object has
    no session and every later post_thread on it sends nothing and
    returns None. *)
Theorem publisher_init_refused E handle app_password tr req res :
  (publisher_init E handle app_password tr).2 = tr ++ [EvRequest req res] →
  json_of_200 res = None →
  session (publisher_init E handle app_password tr).1 = JNull
  ∧ ∀ posts image_path,
      post_thread E (publisher_init E handle app_password tr).1 posts
        image_path (publisher_init E handle app_password tr).2
      = (Returned None, (publisher_init E handle app_password tr).2).
Proof.
  unfold publisher_init, authenticate.
  set (req0 := {| req_url := _; req_headers := _; req_body := _;
                  req_timeout := _ |}).
  intros Htr Hres.
  assert (net E tr req0 = res) as Hnet.
  { destruct (net E tr req0) as [r|]; cbn in Htr.
    - destruct (status_code r =? 200); [destruct (resp_json r) as [data|];
        [destruct (subscript data "did")|]|];
        cbn in Htr; by apply app_inv_head in Htr as [= _ <-].
    - by apply app_inv_head in Htr as [= _ <-]. }
  rewrite Hnet. clear Htr.
  assert (∀ self : publisher, session self = JNull →
            ∀ posts image_path tr',
              post_thread E self posts image_path tr' = (Returned None, tr')) as Hsilent.
  { intros self Hs posts image_path tr'.
    apply post_thread_without_token. by rewrite Hs. }
  destruct res as [r|]; cbn in Hres |- *.
  - destruct (status_code r =? 200).
    + rewrite Hres. cbn. split; [done|]. intros. by apply Hsilent.
    + cbn. split; [done|]. intros. by apply Hsilent.
  - split; [done|]. intros. by apply Hsilent.
Qed.

Lemma publisher_init_refused_witness :
  session (publisher_init (Fixtures.world 0) "alice.bsky.social" "pw" []).1
  = JNull.
Proof.
  assert (∃ req res,
            (publisher_init (Fixtures.world 0) "alice.bsky.social" "pw" []).2
            = [] ++ [EvRequest req res]
            ∧ json_of_200 res = None) as (req & res & Htr & Hres).
  { eexists _, _. split; reflexivity. }
  exact (proj1 (publisher_init_refused (Fixtures.world 0) "alice.bsky.social"
                  "pw" [] req res Htr Hres)).
Defined.

(** ** The requests of [post_thread] *)

Lemma requests_of_app evs evs' :
  requests_of (evs ++ evs') = requests_of evs ++ requests_of evs'.
Proof. apply omap_app. Qed.

Lemma sleeps_of_app evs evs' :
  sleeps_of (evs ++ evs') = sleeps_of evs ++ sleeps_of evs'.
Proof. apply omap_app. Qed.

(** The request of [create_post], when it sends one. *)
Lemma create_post_request E self text reply_to image_blob tr :
  create_post E self text reply_to image_blob tr = (None, tr)
  ∨ ∃ req,
      create_post E self text reply_to image_blob tr
      = (parse_created (net E tr req), tr ++ [EvRequest req (net E tr req)])
      ∧ _get_headers self = Some (req_headers req)
      ∧ req_url req = api_url self +:+ "/com.atproto.repo.createRecord".
Proof.
  unfold create_post. destruct (_get_headers self) as [headers|]; [|by left].
  right. by eexists.
Qed.

(** The request of [upload_image], when it sends one. *)
Lemma upload_image_request E self image_path tr :
  upload_image E self image_path tr = (JNull, tr)
  ∨ ∃ req data tok,
      upload_image E self image_path tr
      = (parse_blob (net E tr req), tr ++ [EvRequest req (net E tr req)])
      ∧ fs E image_path = Content data
      ∧ req_body req = BodyData data
      ∧ subscript (session self) "accessJwt" = Some tok
      ∧ req_headers req !! "Authorization" = Some (HBearer tok)
      ∧ req_url req = api_url self +:+ "/com.atproto.repo.uploadBlob".
Proof.
  unfold upload_image.
  destruct (fs E image_path) as [| |data]; [by left..|].
  destruct (subscript (session self) "accessJwt") as [tok|]; [|by left].
  right. eexists _, data, tok. by repeat split.
Qed.

Lemma get_headers_token self tok headers :
  subscript (session self) "accessJwt" = Some tok →
  _get_headers self = Some headers →
  headers !! "Authorization" = Some (HBearer tok).
Proof.
  unfold _get_headers. intros ->. cbn. by intros [= <-].
Qed.

(** Every request of the loop has the header built from the token. *)
Lemma post_loop_token E self n image_blob tok texts :
  subscript (session self) "accessJwt" = Some tok →
  ∀ idx posted reply_ref tr,
  ∃ evs,
    (post_loop E self n idx texts posted reply_ref image_blob tr).2 = tr ++ evs
    ∧ Forall (λ req, req_headers req !! "Authorization" = Some (HBearer tok))
        (requests_of evs).
Proof.
  intros Htok.
  induction texts as [|text rest IH]; intros idx posted reply_ref tr.
  { exists []. cbn. by rewrite app_nil_r. }
  cbn [post_loop].
  destruct (create_post_request E self text reply_ref
              (if Nat.eqb idx 1 then image_blob else JNull) tr)
    as [->|(req & -> & Hheaders & _)].
  { exists []. cbn. by rewrite app_nil_r. }
  apply (get_headers_token _ _ _ Htok) in Hheaders.
  destruct (parse_created (net E tr req)) as [result|].
  - match goal with
    | |- context [post_loop E self n (S idx) rest ?p ?r image_blob ?t] =>
        destruct (IH (S idx) p r t) as (evs & -> & Hevs)
    end.
    destruct (Nat.ltb idx n).
    + exists ([EvRequest req (net E tr req)] ++ [EvSleep 2] ++ evs).
      split; [by rewrite <- !app_assoc|].
      rewrite !requests_of_app. cbn. by constructor.
    + exists ([EvRequest req (net E tr req)] ++ evs).
      split; [by rewrite <- !app_assoc|].
      rewrite !requests_of_app. cbn. by constructor.
  - exists [EvRequest req (net E tr req)]. cbn. split; [done|].
    by repeat constructor.
Qed.

(** The same for a whole call of [post_thread], upload included. *)
Lemma post_thread_bears_token E self posts image_path tr tok :
  subscript (session self) "accessJwt" = Some tok →
  Forall (λ req, req_headers req !! "Authorization" = Some (HBearer tok))
    (requests_of (new_events tr (post_thread E self posts image_path tr).2)).
Proof.
  intros Htok. destruct posts as [|text rest].
  { cbn. rewrite new_events_same. constructor. }
  rewrite post_thread_unfold. cbn [snd].
  destruct (post_loop_token E self (length (text :: rest))
              (image_stage E self image_path tr).1 tok (text :: rest) Htok
              1%nat [] JNull (image_stage E self image_path tr).2)
    as (evs & -> & Hevs).
  assert (∃ ups, (image_stage E self image_path tr).2 = tr ++ ups
                 ∧ Forall (λ req, req_headers req !! "Authorization"
                                  = Some (HBearer tok)) (requests_of ups))
    as (ups & -> & Hups).
  { unfold image_stage. destruct image_path as [p|];
      [destruct (negb (String.eqb p EmptyString))|];
      try (exists []; cbn; by rewrite app_nil_r).
    destruct (upload_image_request E self p tr)
      as [->|(req & data & tok' & -> & _ & _ & Htok' & Hauth & _)].
    - exists []. cbn. by rewrite app_nil_r.
    - exists [EvRequest req (net E tr req)]. split; [done|].
      rewrite Htok in Htok'. injection Htok' as <-. cbn. by repeat constructor. }
  rewrite <- app_assoc, new_events_app, requests_of_app.
  by apply Forall_app.
Qed.

(** X5. Every request that post_thread sends, the upload as well as
    the record creations, carries the Authorization header built from
    the access token that the session holds. *)
Theorem requests_bear_token E self posts image_path tr tok :
  subscript (session self) "accessJwt" = Some tok →
  Forall (λ req, req_headers req !! "Authorization" = Some (HBearer tok))
    (requests_of (new_events tr (post_thread E self posts image_path tr).2)).
Proof. apply post_thread_bears_token. Qed.

Lemma requests_bear_token_witness :
  Forall (λ req, req_headers req !! "Authorization" = Some (HBearer (JStr "jwt")))
    (requests_of (new_events []
       (post_thread (Fixtures.world 9) Fixtures.alice ["a"; "b"]
          (Some "a.PNG") []).2))
  ∧ length (requests_of (new_events []
       (post_thread (Fixtures.world 9) Fixtures.alice ["a"; "b"]
          (Some "a.PNG") []).2)) = 3%nat.
Proof.
  split; [|vm_compute; reflexivity].
  apply (requests_bear_token (Fixtures.world 9) Fixtures.alice).
  reflexivity.
Defined.

(** The pauses of the loop: one after each creation that succeeded,
    but for the creation of the last text. *)
Lemma post_loop_pacing E self n image_blob texts :
  ∀ idx posted reply_ref tr,
  (idx + length texts = S n)%nat →
  ∃ evs created,
    post_loop E self n idx texts posted reply_ref image_blob tr
    = (posted ++ created, tr ++ evs)
    ∧ sleeps_of evs
      = replicate (min (length created) (length texts - 1)) 2%nat.
Proof.
  induction texts as [|text rest IH]; intros idx posted reply_ref tr Hidx.
  { exists [], []. cbn. by rewrite !app_nil_r. }
  cbn [post_loop].
  destruct (create_post_events E self text reply_ref
              (if Nat.eqb idx 1 then image_blob else JNull) tr)
    as [->|(req & res & payload & -> & _ & _)].
  { exists [], []. cbn. by rewrite !app_nil_r. }
  destruct (parse_created res) as [result|].
  - cbn [length] in Hidx.
    match goal with
    | |- context [post_loop E self n (S idx) rest ?p ?r image_blob ?t] =>
        destruct (IH (S idx) p r t) as (evs & created & -> & Hevs); [lia|]
    end.
    exists ((EvRequest req res :: if Nat.ltb idx n then [EvSleep 2] else [])
            ++ evs), (result :: created).
    split.
    { f_equal; [by rewrite <- app_assoc|].
      destruct (Nat.ltb idx n); by rewrite <- !app_assoc. }
    rewrite sleeps_of_app, Hevs. cbn [length].
    destruct (Nat.ltb_spec idx n) as [Hlt|Hge]; cbn.
    + destruct rest as [|text' rest']; [cbn in Hidx; lia|]. cbn.
      by rewrite Nat.sub_0_r.
    + destruct rest as [|text' rest']; [|cbn in Hidx; lia].
      cbn. by rewrite Nat.min_0_r.
  - exists [EvRequest req res], []. cbn. by rewrite app_nil_r.
Qed.

(** The image stage sends nothing or one upload, and never pauses. *)
Lemma image_stage_request E self image_path tr :
  image_stage E self image_path tr = (JNull, tr)
  ∨ ∃ req p data,
      image_stage E self image_path tr
      = (parse_blob (net E tr req), tr ++ [EvRequest req (net E tr req)])
      ∧ image_path = Some p
      ∧ fs E p = Content data
      ∧ req_body req = BodyData data
      ∧ req_url req = api_url self +:+ "/com.atproto.repo.uploadBlob".
Proof.
  unfold image_stage. destruct image_path as [p|]; [|by left].
  destruct (negb (String.eqb p EmptyString)); [|by left].
  destruct (upload_image_request E self p tr)
    as [->|(req & data & tok & -> & Hfs & Hbody & _ & _ & Hurl)]; [by left|].
  right. by exists req, p, data.
Qed.

Lemma exchanges_app evs evs' :
  exchanges (evs ++ evs') = exchanges evs ++ exchanges evs'.
Proof. apply omap_app. Qed.

(** Where the pauses of the loop are: right after each creation that
    succeeded and was not that of the last text. *)
Lemma post_loop_paced E self n image_blob texts :
  ∀ i posted reply_ref tr,
  ∃ evs,
    (post_loop E self n (S i) texts posted reply_ref image_blob tr).2
    = tr ++ evs
    ∧ evs = paced n i (exchanges evs).
Proof.
  induction texts as [|text rest IH]; intros i posted reply_ref tr.
  { exists []. cbn. by rewrite app_nil_r. }
  cbn [post_loop].
  destruct (create_post_events E self text reply_ref
              (if Nat.eqb (S i) 1 then image_blob else JNull) tr)
    as [->|(req & res & payload & -> & _ & _)].
  { exists []. cbn. by rewrite app_nil_r. }
  destruct (parse_created res) as [result|] eqn:Hres.
  - match goal with
    | |- context [post_loop E self n (S (S i)) rest ?p ?r image_blob ?t] =>
        destruct (IH (S i) p r t) as (evs & -> & Hevs)
    end.
    exists (EvRequest req res
            :: (if Nat.ltb (S i) n then [EvSleep 2] else []) ++ evs).
    split.
    { destruct (Nat.ltb (S i) n); by rewrite <- !app_assoc. }
    assert (exchanges (EvRequest req res
              :: (if Nat.ltb (S i) n then [EvSleep 2] else []) ++ evs)
            = (req, res) :: exchanges evs) as ->.
    { change (EvRequest req res
              :: (if Nat.ltb (S i) n then [EvSleep 2] else []) ++ evs)
        with ([EvRequest req res]
              ++ (if Nat.ltb (S i) n then [EvSleep 2] else []) ++ evs).
      rewrite !exchanges_app. by destruct (Nat.ltb (S i) n). }
    cbn [app paced]. rewrite Hres, <- Hevs. done.
  - exists [EvRequest req res]. split; [done|]. cbn. by rewrite Hres.
Qed.

(** X6. Pacing: what post_thread adds to the trace after its upload, if
    any, is fixed by its record creations: each of them, followed at
    once by a pause of 2 seconds when it succeeded and was not for the
    last text, and no pause anywhere else; so a thread of n texts of
    which k were created has min(k, n-1) pauses. *)
Theorem post_thread_pacing E self posts image_path tr :
  ∃ ups evs,
    new_events tr (post_thread E self posts image_path tr).2 = ups ++ evs
    ∧ (length ups ≤ 1)%nat
    ∧ sleeps_of ups = []
    ∧ create_log ups = []
    ∧ evs = paced (length posts) 0 (exchanges evs)
    ∧ sleeps_of (new_events tr (post_thread E self posts image_path tr).2)
      = replicate
          (min (created_count (thread_log E self posts image_path tr))
               (length posts - 1)) 2%nat.
Proof.
  destruct posts as [|text rest].
  { exists [], []. rewrite thread_log_empty. cbn. rewrite new_events_same.
    repeat split; try done. cbn. lia. }
  unfold thread_log. rewrite post_thread_unfold. cbn [fst snd].
  destruct (post_loop_pacing E self (length (text :: rest))
              (image_stage E self image_path tr).1 (text :: rest)
              1%nat [] JNull (image_stage E self image_path tr).2)
    as (evs & created & Hloop & Hsleeps); [done|].
  destruct (post_loop_paced E self (length (text :: rest))
              (image_stage E self image_path tr).1 (text :: rest)
              0%nat [] JNull (image_stage E self image_path tr).2)
    as (evs' & Htr' & Hpaced).
  destruct (post_loop_chain E self (length (text :: rest))
              (image_stage E self image_path tr).1 (text :: rest)
              1%nat [] JNull (image_stage E self image_path tr).2)
    as (evs'' & Htr'' & _ & Hchain).
  rewrite Hloop in Htr', Htr'', Hchain |- *. cbn [fst snd app] in *.
  apply app_inv_head in Htr', Htr''. subst evs' evs''.
  apply chain_extends in Hchain as (created' & Hc & _ & _ & _ & Hcount & _).
  cbn in Hc. subst created'.
  destruct (image_stage_request E self image_path tr)
    as [->|(req & p & data & -> & _ & _ & Hbody & _)]; cbn [snd].
  - exists [], evs. rewrite new_events_app. cbn [app].
    rewrite Hcount, Hsleeps. repeat split; try done. cbn. lia.
  - exists [EvRequest req (net E tr req)], evs.
    rewrite <- app_assoc, new_events_app, create_log_app, sleeps_of_app.
    assert (create_log [EvRequest req (net E tr req)] = []) as Hnone.
    { cbn. by rewrite Hbody. }
    rewrite Hnone. cbn [app].
    change (sleeps_of [EvRequest req (net E tr req)]) with ([] : list nat).
    cbn [app]. rewrite Hcount, Hsleeps. by repeat split.
Qed.

(** X7. Order of the requests: what post_thread adds to the trace is at
    most one upload, whose body is the content of the named file,
    followed by events among which there is no upload; and there are no
    more record creations than texts. *)
Theorem upload_comes_first E self posts image_path tr :
  ∃ ups evs,
    new_events tr (post_thread E self posts image_path tr).2 = ups ++ evs
    ∧ (ups = []
       ∨ ∃ req res p data,
           ups = [EvRequest req res]
           ∧ image_path = Some p
           ∧ fs E p = Content data
           ∧ req_body req = BodyData data
           ∧ req_url req = api_url self +:+ "/com.atproto.repo.uploadBlob")
    ∧ upload_log evs = []
    ∧ (length (create_log evs) ≤ length posts)%nat.
Proof.
  destruct posts as [|text rest].
  { exists [], []. cbn. rewrite new_events_same. by repeat split; [left|..]. }
  rewrite post_thread_unfold. cbn [snd].
  destruct (post_loop_chain E self (length (text :: rest))
              (image_stage E self image_path tr).1 (text :: rest)
              1%nat [] JNull (image_stage E self image_path tr).2)
    as (evs & -> & Hup & Hchain).
  apply chain_extends in Hchain as (_ & _ & _ & _ & Hlen & _).
  destruct (image_stage_request E self image_path tr)
    as [->|(req & p & data & -> & -> & Hfs & Hbody & Hurl)]; cbn [snd].
  - exists [], evs. rewrite new_events_app. by repeat split; [left|..].
  - exists [EvRequest req (net E tr req)], evs.
    rewrite <- app_assoc, new_events_app. repeat split; [|done..].
    right. by exists req, (net E tr req), p, data.
Qed.

(** ** The generator: rounds, rotation, results *)

Lemma generator_init_well_formed items : well_formed (generator_init items).
Proof.
  split.
  - destruct items; [by left|right; cbn; lia].
  - intros provider [[k v] [-> Hin]]%list_elem_of_fmap. cbn in *.
    destruct (list_to_map (M := gmap string string) items !! k) eqn:Hk;
      [by eexists|].
    apply not_elem_of_list_to_map in Hk. destruct Hk.
    apply list_elem_of_fmap. by exists (k, v).
Qed.

Section Rounds.

Variable E : env.
Variable self : generator.
Variable prompt : string.

(** One call of a provider: it raises before sending anything, or sends
    one request with a timeout of 30 seconds. *)
Lemma provider_call_events provider tr :
  ∃ content evs,
    (if String.eqb provider "groq" then _call_groq E self prompt tr
     else if String.eqb provider "gemini" then _call_gemini E self prompt tr
     else (Returned JNull, tr)) = (content, tr ++ evs)
    ∧ sleeps_of evs = []
    ∧ (length (requests_of evs) ≤ 1)%nat
    ∧ Forall (λ req, req_timeout req = Some 30%nat) (requests_of evs)
    ∧ (provider ≠ "groq" → provider ≠ "gemini" → evs = []).
Proof.
  destruct (String.eqb_spec provider "groq") as [->|Hg].
  { unfold _call_groq. destruct (providers self !! "groq").
    - eexists _, [_]. split; [done|]. cbn. repeat split; [lia|by repeat constructor|done].
    - eexists _, []. rewrite app_nil_r. split; [done|]. cbn.
      repeat split; [lia|constructor]. }
  destruct (String.eqb_spec provider "gemini") as [->|Hm].
  { unfold _call_gemini. destruct (providers self !! "gemini").
    - eexists _, [_]. split; [done|]. cbn. repeat split; [lia|by repeat constructor|done].
    - eexists _, []. rewrite app_nil_r. split; [done|]. cbn.
      repeat split; [lia|constructor]. }
  eexists _, []. rewrite app_nil_r. split; [done|]. cbn.
  repeat split; [lia|constructor].
Qed.

(** The loop sends at most one request a round and pauses one second
    after each round that gave no thread. *)
Lemma generate_loop_budget budget :
  ∀ index tr,
  ∃ evs,
    (generate_loop E self prompt budget index tr).2.2 = tr ++ evs
    ∧ (length (requests_of evs) ≤ budget)%nat
    ∧ Forall (λ req, req_timeout req = Some 30%nat) (requests_of evs)
    ∧ (length (sleeps_of evs) ≤ budget)%nat
    ∧ Forall (λ seconds, seconds = 1%nat) (sleeps_of evs).
Proof.
  induction budget as [|budget IH]; intros index tr.
  { exists []. cbn [generate_loop snd]. rewrite app_nil_r. split; [done|]. cbn.
    split; [lia|]. split; [constructor|]. split; [lia|constructor]. }
  cbn [generate_loop].
  destruct (provider_list self !! index) as [provider|].
  2:{ exists []. cbn [snd]. rewrite app_nil_r. split; [done|]. cbn.
      split; [lia|]. split; [constructor|]. split; [lia|constructor]. }
  destruct (provider_call_events provider tr)
    as (content & evs & -> & Hs & Hn & Ht & _).
  assert (∃ evs', tr ++ evs = tr ++ evs'
                  ∧ (length (requests_of evs') ≤ S budget)%nat
                  ∧ Forall (λ req, req_timeout req = Some 30%nat) (requests_of evs')
                  ∧ (length (sleeps_of evs') ≤ S budget)%nat
                  ∧ Forall (λ seconds, seconds = 1%nat) (sleeps_of evs'))
    as Hstop.
  { exists evs. rewrite Hs. split; [done|]. split; [lia|]. split; [done|].
    cbn. split; [lia|constructor]. }
  assert (∃ evs',
            (generate_loop E self prompt budget
               (S index mod length (provider_list self))%nat
               ((tr ++ evs) ++ [EvSleep 1])).2.2 = tr ++ evs'
            ∧ (length (requests_of evs') ≤ S budget)%nat
            ∧ Forall (λ req, req_timeout req = Some 30%nat) (requests_of evs')
            ∧ (length (sleeps_of evs') ≤ S budget)%nat
            ∧ Forall (λ seconds, seconds = 1%nat) (sleeps_of evs'))
    as Hnext.
  { destruct (IH (S index mod length (provider_list self))%nat
                ((tr ++ evs) ++ [EvSleep 1]))
      as (evs' & -> & Hn' & Ht' & Hs' & Hone).
    exists (evs ++ [EvSleep 1] ++ evs').
    split; [by rewrite <- !app_assoc|].
    rewrite !requests_of_app, !sleeps_of_app, !length_app, Hs. cbn.
    repeat split; [lia|by apply Forall_app|lia|by constructor]. }
  destruct content as [content|exc]; [|done].
  destruct (truthy content); [|done].
  destruct content; try done.
  by destruct (negb (Nat.eqb (length (_parse_thread s)) 0)
               && Nat.leb 3 (length (_parse_thread s))).
Qed.

(** The index stays inside the list; when the rounds are used up, it
    has moved on by their number. *)
Lemma generate_loop_rotation budget :
  ∀ index tr,
  (index < length (provider_list self))%nat →
  ((generate_loop E self prompt budget index tr).2.1
   < length (provider_list self))%nat
  ∧ ((generate_loop E self prompt budget index tr).1 = Returned None →
     (generate_loop E self prompt budget index tr).2.1
     = ((index + budget) mod length (provider_list self))%nat).
Proof.
  induction budget as [|budget IH]; intros index tr Hindex.
  { cbn. split; [done|]. intros _.
    by rewrite Nat.add_0_r, Nat.mod_small. }
  cbn [generate_loop].
  destruct (provider_list self !! index) as [provider|]; [|done].
  destruct (provider_call_events provider tr) as (content & evs & -> & _).
  assert (S index mod length (provider_list self)
          < length (provider_list self))%nat as Hnext.
  { apply Nat.mod_upper_bound. lia. }
  specialize (IH (S index mod length (provider_list self))%nat
                ((tr ++ evs) ++ [EvSleep 1]) Hnext).
  replace ((S index mod length (provider_list self) + budget)
           mod length (provider_list self))%nat
    with ((index + S budget) mod length (provider_list self))%nat in IH.
  2:{ rewrite Nat.Div0.add_mod_idemp_l. f_equal. lia. }
  destruct content as [content|exc]; [|done].
  destruct (truthy content); [|done].
  destruct content; try done.
  by destruct (negb (Nat.eqb (length (_parse_thread s)) 0)
               && Nat.leb 3 (length (_parse_thread s))).
Qed.

(** A list that the loop returns is what the parser made of an answer. *)
Lemma generate_loop_parsed budget :
  ∀ index tr posts,
    (generate_loop E self prompt budget index tr).1 = Returned (Some posts) →
    ∃ content, posts = _parse_thread content.
Proof.
  induction budget as [|budget IH]; intros index tr posts; [done|].
  cbn [generate_loop].
  destruct (provider_list self !! index) as [provider|]; [|done].
  destruct (if String.eqb provider "groq" then _call_groq E self prompt tr
            else if String.eqb provider "gemini"
                 then _call_gemini E self prompt tr
                 else (Returned JNull, tr)) as [[content|exc] tr1]; [|done].
  destruct (truthy content); [|apply IH].
  destruct content as [| | | |s| |]; try done.
  destruct (negb (Nat.eqb (length (_parse_thread s)) 0)
            && Nat.leb 3 (length (_parse_thread s))); [|apply IH].
  cbn. intros [= <-]. by exists s.
Qed.

End Rounds.

(** X8. Rounds of generate_thread: it sends at most
    min(retry_count, number of providers) requests, each with a timeout
    of 30 seconds, and pauses one second at most as many times; with a
    retry_count of 0 or less, or without providers, it returns None and
    does nothing. *)
Theorem generate_thread_budget E self topic retry_count tr :
  (∃ evs,
     (generate_thread E self topic retry_count tr).2.2 = tr ++ evs
     ∧ (Z.of_nat (length (requests_of evs))
        ≤ Z.max 0 (Z.min retry_count (Z.of_nat (length (provider_list self)))))
     ∧ Forall (λ req, req_timeout req = Some 30%nat) (requests_of evs)
     ∧ (length (sleeps_of evs) ≤ length (provider_list self))%nat
     ∧ Forall (λ seconds, seconds = 1%nat) (sleeps_of evs))
  ∧ (retry_count ≤ 0 ∨ provider_list self = [] →
     generate_thread E self topic retry_count tr
     = (Returned None, (current_index self, tr))).
Proof.
  unfold generate_thread. split.
  - destruct (generate_loop_budget E self (_create_thread_prompt topic)
                (Z.to_nat (Z.min retry_count
                             (Z.of_nat (length (provider_list self)))))
                (current_index self) tr)
      as (evs & Htr & Hn & Ht & Hs & Hone).
    exists evs. repeat split; [done|lia|done|lia|done].
  - intros Hnone.
    replace (Z.to_nat (Z.min retry_count
                         (Z.of_nat (length (provider_list self)))))
      with 0%nat; [done|].
    destruct Hnone as [?| ->]; cbn; lia.
Qed.

Lemma generate_thread_budget_witness :
  generate_thread (GenFixtures.llm (JStr GenFixtures.five_posts))
    GenFixtures.bot "topic" 0 []
  = (Returned None, (0%nat, [])).
Proof.
  apply (proj2 (generate_thread_budget
                  (GenFixtures.llm (JStr GenFixtures.five_posts))
                  GenFixtures.bot "topic" 0 [])).
  left. lia.
Defined.

(** The generator with the index that a call has left is well formed. *)
Lemma generate_thread_keeps_well_formed E self topic retry_count tr :
  well_formed self →
  well_formed
    (with_index self (generate_thread E self topic retry_count tr).2.1).
Proof.
  intros [Hindex Hkeys]. split; [|done]. cbn.
  destruct Hindex as [Hnil|Hindex]; [by left|right].
  by apply generate_loop_rotation.
Qed.

(** X9. Rotation: the constructor leaves a generator whose index is
    inside its list of providers and whose listed providers all have a
    key, and generate_thread keeps it so; when generate_thread gives up
    with None, the index has advanced by the number of rounds, modulo
    the number of providers. *)
Theorem provider_rotation E self topic retry_count tr :
  (∀ items, well_formed (generator_init items))
  ∧ (well_formed self →
     well_formed
       (with_index self (generate_thread E self topic retry_count tr).2.1)
     ∧ ((generate_thread E self topic retry_count tr).1 = Returned None →
        provider_list self ≠ [] →
        Z.of_nat (generate_thread E self topic retry_count tr).2.1
        = (Z.of_nat (current_index self)
           + Z.max 0 (Z.min retry_count
                        (Z.of_nat (length (provider_list self)))))
          mod Z.of_nat (length (provider_list self)))).
Proof.
  split; [apply generator_init_well_formed|].
  intros Hwf. split; [by apply generate_thread_keeps_well_formed|].
  intros Hnone Hlist. destruct Hwf as [[?|Hindex] _]; [done|].
  unfold generate_thread in *.
  rewrite (proj2 (generate_loop_rotation E self _ _ _ tr Hindex) Hnone).
  rewrite Nat2Z.inj_mod, Nat2Z.inj_add. f_equal. f_equal. lia.
Qed.

Lemma provider_rotation_witness :
  (generate_thread (GenFixtures.llm (JStr "a---b")) GenFixtures.bot
     "topic" 1 []).2.1 = 1%nat.
Proof.
  pose proof (proj2 (proj2 (provider_rotation
                              (GenFixtures.llm (JStr "a---b"))
                              GenFixtures.bot "topic" 1 [])
                       bot_well_formed)) as Hrot.
  apply Nat2Z.inj. rewrite Hrot; [reflexivity|vm_compute; reflexivity|done].
Defined.

(** X10. Every post of a thread that generate_thread returns is
    non-empty and has at most 300 characters, and there are at least
    three of them. *)
Theorem generated_posts_fit E self topic retry_count tr posts :
  (generate_thread E self topic retry_count tr).1 = Returned (Some posts) →
  (3 ≤ length posts)%nat
  ∧ Forall (λ post, post ≠ EmptyString ∧ (String.length post ≤ 300)%nat) posts.
Proof.
  intros Hposts. split; [by eapply generate_loop_min_size|].
  apply generate_loop_parsed in Hposts as [content ->].
  unfold _parse_thread. by apply clean_posts_bounds.
Qed.

Lemma generated_posts_fit_witness :
  Forall (λ post, post ≠ EmptyString ∧ (String.length post ≤ 300)%nat)
    ["one (1/5)"; "two"; "three"; "five"].
Proof.
  apply (generated_posts_fit (GenFixtures.llm (JStr GenFixtures.five_posts))
           GenFixtures.bot "topic" 2 []).
  vm_compute. reflexivity.
Defined.

(** ** The parser as a filter *)

Lemma clean_posts_filter posts :
  ∀ cleaned,
    clean_posts posts cleaned
    = cleaned ++ List.filter acceptable (normalize_post <$> posts).
Proof.
  induction posts as [|post rest IH]; intros cleaned.
  { cbn. by rewrite app_nil_r. }
  cbn [clean_posts fmap list_fmap List.filter].
  fold (normalize_post post). fold (acceptable (normalize_post post)).
  destruct (acceptable (normalize_post post)); rewrite IH; [|done].
  by rewrite <- app_assoc.
Qed.

(** X11. The posts that _parse_thread returns are, in their order, the
    pieces of the split content, each stripped and relieved of its
    surrounding quotes, without the pieces that come out empty or
    longer than 300 characters: a piece is kept whole or dropped, never
    cut, and there are no more posts than pieces. *)
Theorem parse_thread_is_filter content :
  _parse_thread content
  = List.filter acceptable
      (normalize_post <$> split_posts (foldl strip_prefix content prefixes))
  ∧ (length (_parse_thread content)
     ≤ length (split_posts (foldl strip_prefix content prefixes)))%nat.
Proof.
  unfold _parse_thread. rewrite clean_posts_filter. cbn [app].
  split; [done|].
  etrans; [apply List.filter_length_le|]. by rewrite length_fmap.
Qed.

(** ** Batches *)

Lemma generate_thread_returns E self topic retry_count tr :
  well_formed self → answers_text E →
  ∃ r, (generate_thread E self topic retry_count tr).1 = Returned r.
Proof.
  intros [Hindex Hkeys] Hans. unfold generate_thread.
  destruct Hindex as [Hnil|Hindex].
  - rewrite Hnil. cbn [length].
    replace (Z.to_nat (Z.min retry_count (Z.of_nat 0))) with 0%nat by lia.
    by eexists.
  - by apply generate_loop_returns.
Qed.

Lemma generate_batch_loop_results E self n topics :
  ∀ idx results index tr out,
    (generate_batch_loop E self n idx topics results index tr).1
    = Returned out →
    ∃ added,
      out = results ++ added
      ∧ br_topic <$> added = topics
      ∧ Forall batch_result_ok added.
Proof.
  induction topics as [|topic rest IH]; intros idx results index tr out.
  { cbn. intros [= <-]. exists []. by rewrite app_nil_r. }
  cbn [generate_batch_loop].
  destruct (generate_thread E (with_index self index) topic 2 tr)
    as [[posts|exc] [index' tr']] eqn:Hgen; [|done].
  intros (added & -> & Htopics & Hok)%IH.
  eexists (_ :: added). rewrite <- app_assoc. split; [done|].
  cbn. rewrite Htopics. split; [done|]. constructor; [|done].
  unfold batch_result_ok. cbn. destruct posts as [posts|]; [|done].
  assert (3 ≤ length posts)%nat as Hlen.
  { pose proof (f_equal fst Hgen) as Hfst. unfold generate_thread in Hfst.
    by eapply generate_loop_min_size. }
  split; [|done]. destruct posts; [cbn in Hlen; lia|done].
Qed.

Lemma generate_batch_loop_returns E self n topics :
  answers_text E →
  ∀ idx results index tr,
    well_formed (with_index self index) →
    ∃ out,
      (generate_batch_loop E self n idx topics results index tr).1
      = Returned out.
Proof.
  intros Hans.
  induction topics as [|topic rest IH]; intros idx results index tr Hwf.
  { by eexists. }
  cbn [generate_batch_loop].
  destruct (generate_thread_returns E (with_index self index) topic 2 tr
              Hwf Hans) as [posts Hposts].
  pose proof (generate_thread_keeps_well_formed E (with_index self index)
                topic 2 tr Hwf) as Hwf'.
  destruct (generate_thread E (with_index self index) topic 2 tr)
    as [[posts'|exc] [index' tr']]; [|done].
  by apply IH.
Qed.

(** X12. generate_batch: the list it returns has one entry for each
    topic, in the order of the topics; an entry with posts has status
    success and at least 3 posts, an entry without has status failed;
    and with a well-formed generator and providers that answer with a
    string or nothing, it does return. *)
Theorem generate_batch_results E self topics tr :
  (∀ results,
     (generate_batch E self topics tr).1 = Returned results →
     br_topic <$> results = topics ∧ Forall batch_result_ok results)
  ∧ (well_formed self → answers_text E →
     ∃ results, (generate_batch E self topics tr).1 = Returned results).
Proof.
  unfold generate_batch. split.
  - intros results (added & -> & Htopics & Hok)%generate_batch_loop_results.
    done.
  - intros Hwf Hans. apply generate_batch_loop_returns; [done|].
    by destruct self.
Qed.

Lemma generate_batch_results_witness :
  ∃ results,
    (generate_batch (GenFixtures.llm (JStr GenFixtures.five_posts))
       GenFixtures.bot ["t1"; "t2"] []).1 = Returned results
    ∧ br_topic <$> results = ["t1"; "t2"].
Proof.
  pose proof (generate_batch_results
                (GenFixtures.llm (JStr GenFixtures.five_posts))
                GenFixtures.bot ["t1"; "t2"] []) as [Hshape Hret].
  destruct (Hret bot_well_formed (llm_answers_text _)) as [results Hresults].
  exists results. split; [exact Hresults|].
  exact (proj1 (Hshape results Hresults)).
Defined.

(** ** Looking a thread up in the schedule *)

Lemma today_loop_skip today before rest :
  Forall (other_day today) before →
  today_loop (before ++ rest) today = today_loop rest today.
Proof.
  induction 1 as [|entry before (date & Hdate & Hne) _ IH]; [done|].
  cbn. destruct entry; try done. cbn in *. by rewrite Hdate, Hne.
Qed.

Lemma time_loop_skip target_time before rest :
  Forall (other_time target_time) before →
  time_loop (before ++ rest) target_time = time_loop rest target_time.
Proof.
  induction 1 as [|thread before (time & Htime & Hne) _ IH]; [done|].
  cbn. destruct thread; try done. cbn in *. by rewrite Htime, Hne.
Qed.

Lemma eq_str_refl s : eq_str (JStr s) s = true.
Proof. apply String.eqb_refl. Qed.

(** X13. get_today_threads answers with the posts of the first entry of
    the schedule that is dated today (a KeyError if this entry has no
    posts), the entries before it being dictionaries with another
    date; and with the empty list when every entry has another date. *)
Theorem get_today_threads_first_match today :
  (∀ before entry after,
     Forall (other_day today) before →
     subscript entry "date" = Some (JStr today) →
     get_today_threads (JArr (before ++ entry :: after)) today
     = subscript_exc entry "posts")
  ∧ (∀ days,
       Forall (other_day today) days →
       get_today_threads (JArr days) today = Returned (JArr [])).
Proof.
  split.
  - intros before entry after Hbefore Hdate. cbn.
    rewrite today_loop_skip by done. cbn.
    destruct entry; try done. cbn in *. by rewrite Hdate, eq_str_refl.
  - intros days Hdays. cbn.
    rewrite <- (app_nil_r days). by rewrite today_loop_skip.
Qed.

Lemma get_today_threads_first_match_witness :
  get_today_threads AutoFixtures.two_days "2025-12-10"
  = subscript_exc (AutoFixtures.entry "2025-12-10" "second day") "posts".
Proof.
  apply (proj1 (get_today_threads_first_match "2025-12-10")
           [AutoFixtures.entry "2025-12-09" "first day"]
           (AutoFixtures.entry "2025-12-10" "second day") []).
  - repeat constructor. eexists. split; reflexivity.
  - reflexivity.
Defined.

(** X14. get_thread_by_time answers with the first of today's threads
    whose time is the one asked for, the threads before it being
    dictionaries with another time; and with None when every thread of
    today has another time. *)
Theorem get_thread_by_time_first_match schedule today target_time threads :
  get_today_threads schedule today = Returned (JArr threads) →
  (∀ before thread after,
     threads = before ++ thread :: after →
     Forall (other_time target_time) before →
     subscript thread "time" = Some (JStr target_time) →
     get_thread_by_time schedule today target_time = Returned thread)
  ∧ (Forall (other_time target_time) threads →
     get_thread_by_time schedule today target_time = Returned JNull).
Proof.
  intros Htoday. unfold get_thread_by_time. rewrite Htoday. cbn. split.
  - intros before thread after -> Hbefore Htime.
    rewrite time_loop_skip by done. cbn.
    destruct thread; try done. cbn in *. by rewrite Htime, eq_str_refl.
  - intros Hall. rewrite <- (app_nil_r threads). by rewrite time_loop_skip.
Qed.

Lemma get_thread_by_time_first_match_witness :
  payload_field "topic"
    (JObj {[ "record" :=
               match get_thread_by_time AutoFixtures.two_days
                       "2025-12-10" "14:00" with
               | Returned thread => thread
               | Raised _ => JNull
               end ]})
  = Some (JStr "second day again").
Proof.
  assert (∃ threads,
            get_today_threads AutoFixtures.two_days "2025-12-10"
            = Returned (JArr threads)) as [threads Htoday].
  { eexists. vm_compute. reflexivity. }
  pose proof Htoday as Hcopy. vm_compute in Hcopy. injection Hcopy as <-.
  rewrite (proj1 (get_thread_by_time_first_match _ _ "14:00" _ Htoday)
             [JObj {[ "time" := JStr "09:00"; "topic" := JStr "second day" ]}]
             (JObj {[ "time" := JStr "14:00";
                      "topic" := JStr "second day again" ]}) []).
  - vm_compute. reflexivity.
  - vm_compute. reflexivity.
  - repeat constructor. eexists. split; reflexivity.
  - reflexivity.
Defined.

(** ** The schedule of the setup helper *)

Lemma schedule_topics_threads i day_topics :
  schedule_topics !! i = Some day_topics →
  threads_loop 0 schedule_times day_topics []
  = Returned (zip_with thread_entry schedule_times day_topics)
  ∧ length day_topics = 3%nat.
Proof.
  intros Hi. do 7 (destruct i as [|i]; [by injection Hi as <-|]). done.
Qed.

Section CreatedSchedule.

Variable strptime : string → option datetime.
Variable date_after : datetime → nat → option string.

Lemma schedule_loop_entries start count :
  ∀ day schedule out,
    schedule_loop date_after start count day schedule = Returned out →
    ∃ added,
      out = schedule ++ added
      ∧ length added = count
      ∧ ∀ k entry,
          added !! k = Some entry →
          ∃ date day_topics,
            date_after start (day + k - 1) = Some date
            ∧ schedule_topics !! ((day + k - 1) mod 7)%nat = Some day_topics
            ∧ entry = day_entry (day + k) date
                        (zip_with thread_entry schedule_times day_topics).
Proof.
  induction count as [|count IH]; intros day schedule out.
  { cbn. intros [= <-]. exists []. by rewrite app_nil_r. }
  cbn [schedule_loop].
  destruct (date_after start (day - 1)) as [date|] eqn:Hdate; [|done].
  change (length schedule_topics) with 7%nat.
  destruct (schedule_topics !! ((day - 1) mod 7)%nat)
    as [day_topics|] eqn:Htopics; [|done].
  destruct (schedule_topics_threads _ _ Htopics) as [-> _].
  intros (added & -> & Hlen & Hadded)%IH.
  eexists (_ :: added). rewrite <- app_assoc. split; [done|].
  split; [by cbn; rewrite Hlen|].
  intros [|k] entry; cbn.
  - intros [= <-]. exists date, day_topics.
    by rewrite !Nat.add_0_r.
  - intros Hk. destruct (Hadded _ _ Hk) as (date' & topics' & Hd & Ht & ->).
    exists date', topics'.
    by replace (day + S k)%nat with (S day + k)%nat by lia.
Qed.

Lemma today_loop_created today entries :
  Forall (λ entry, ∃ day date threads, entry = day_entry day date threads)
    entries →
  today_loop entries today
  = if covers entries today then Raised "KeyError" else Returned (JArr []).
Proof.
  induction 1 as [|entry entries (day & date & threads & ->) _ IH]; [done|].
  cbn [today_loop covers existsb].
  assert (subscript (day_entry day date threads) "date" = Some (JStr date))
    as Hdate by (unfold day_entry; cbn; lookup_literal).
  assert (subscript_exc (day_entry day date threads) "date"
          = Returned (JStr date)) as ->.
  { unfold subscript_exc, day_entry in *. cbn in Hdate. by rewrite Hdate. }
  assert (subscript_exc (day_entry day date threads) "posts"
          = Raised "KeyError") as ->.
  { unfold subscript_exc, day_entry. by vm_compute. }
  rewrite Hdate. destruct (eq_str (JStr date) today); [done|]. apply IH.
Qed.

(** X15. The schedule that create_schedule returns has as many entries
    as days were asked for (none for 0 or less); entry k, counted from
    0, is numbered k+1, dated k days after the start, and holds three
    threads, at 09:00, 14:00 and 19:00, without image, on the three
    topics of row k mod 7 of the table, so the topics repeat every
    seven days. *)
Theorem create_schedule_shape start_date days entries :
  create_schedule strptime date_after start_date days = Returned entries →
  length entries = Z.to_nat days
  ∧ ∀ k entry,
      entries !! k = Some entry →
      ∃ start date day_topics,
        strptime start_date = Some start
        ∧ date_after start k = Some date
        ∧ schedule_topics !! (k mod 7)%nat = Some day_topics
        ∧ length day_topics = 3%nat
        ∧ entry = day_entry (S k) date
                    (zip_with thread_entry schedule_times day_topics).
Proof.
  unfold create_schedule.
  destruct (strptime start_date) as [start|]; [|done].
  intros (added & -> & Hlen & Hadded)%schedule_loop_entries.
  split; [done|]. intros k entry Hk.
  destruct (Hadded _ _ Hk) as (date & day_topics & Hdate & Htopics & ->).
  replace (1 + k - 1)%nat with k in * by lia.
  exists start, date, day_topics.
  by destruct (schedule_topics_threads _ _ Htopics).
Qed.

(** X16. On a schedule as create_schedule builds it, get_today_threads
    never gives threads back: the entries keep them under the key
    threads while it reads the key posts, so it raises a KeyError when
    an entry is dated today and returns the empty list otherwise. *)
Theorem created_schedule_lacks_posts start_date days entries today :
  create_schedule strptime date_after start_date days = Returned entries →
  get_today_threads (JArr entries) today
  = if covers entries today then Raised "KeyError" else Returned (JArr []).
Proof.
  unfold create_schedule.
  destruct (strptime start_date) as [start|]; [|done].
  intros (added & -> & _ & Hadded)%schedule_loop_entries.
  cbn. apply today_loop_created, Forall_lookup. intros k entry Hk.
  destruct (Hadded _ _ Hk) as (date & day_topics & _ & _ & ->).
  by eexists _, _, _.
Qed.

End CreatedSchedule.

Lemma create_schedule_shape_witness :
  ∃ entries,
    create_schedule AutoFixtures.strptime AutoFixtures.date_after
      "2025-12-09" 9 = Returned entries
    ∧ length entries = 9%nat.
Proof.
  assert (∃ entries,
            create_schedule AutoFixtures.strptime AutoFixtures.date_after
              "2025-12-09" 9 = Returned entries) as [entries Hentries].
  { eexists. vm_compute. reflexivity. }
  exists entries. split; [exact Hentries|].
  exact (proj1 (create_schedule_shape _ _ _ _ _ Hentries)).
Defined.

Lemma created_schedule_lacks_posts_witness :
  ∃ entries,
    create_schedule AutoFixtures.strptime AutoFixtures.date_after
      "2025-12-09" 7 = Returned entries
    ∧ get_today_threads (JArr entries) "2025-12-10" = Raised "KeyError".
Proof.
  assert (∃ entries,
            create_schedule AutoFixtures.strptime AutoFixtures.date_after
              "2025-12-09" 7 = Returned entries) as [entries Hentries].
  { eexists. vm_compute. reflexivity. }
  exists entries. split; [exact Hentries|].
  rewrite (created_schedule_lacks_posts _ _ _ _ _ "2025-12-10" Hentries).
  vm_compute in Hentries. injection Hentries as <-.
  vm_compute. reflexivity.
Defined.

(** ** [generate_and_post] *)

(** What [post_thread] returns, against the creations that succeeded. *)
Lemma post_thread_returns_created E self posts image_path tr :
  posts ≠ [] →
  ∃ final,
    (post_thread E self posts image_path tr).1
    = thread_return (length posts) final
    ∧ created_count (thread_log E self posts image_path tr) = length final.
Proof.
  intros Hposts.
  destruct (post_thread_run E self posts image_path tr Hposts)
    as (final & Hret & Hchain & _).
  exists final. split; [done|].
  by apply chain_extends in Hchain as (created & -> & _ & _ & _ & -> & _).
Qed.

(** [post_thread] raises on a full list only. *)
Lemma thread_return_raised n final exc :
  thread_return n final = Raised exc → length final = n.
Proof.
  unfold thread_return.
  destruct (Nat.eqb_spec (length final) n); [done|]. by destruct final.
Qed.

(** The provider calls send JSON, never a file. *)
Lemma generate_loop_no_upload E self prompt budget :
  ∀ index tr,
  ∃ evs,
    (generate_loop E self prompt budget index tr).2.2 = tr ++ evs
    ∧ upload_log evs = [].
Proof.
  induction budget as [|budget IH]; intros index tr.
  { exists []. cbn. by rewrite app_nil_r. }
  cbn [generate_loop].
  destruct (provider_list self !! index) as [provider|].
  2:{ exists []. cbn. by rewrite app_nil_r. }
  assert (∃ content evs,
            (if String.eqb provider "groq" then _call_groq E self prompt tr
             else if String.eqb provider "gemini"
                  then _call_gemini E self prompt tr
                  else (Returned JNull, tr)) = (content, tr ++ evs)
            ∧ upload_log evs = []) as (content & evs & -> & Hevs).
  { destruct (String.eqb provider "groq").
    - unfold _call_groq. destruct (providers self !! "groq").
      + by eexists _, [_].
      + eexists _, []. by rewrite app_nil_r.
    - destruct (String.eqb provider "gemini").
      + unfold _call_gemini. destruct (providers self !! "gemini").
        * by eexists _, [_].
        * eexists _, []. by rewrite app_nil_r.
      + eexists _, []. by rewrite app_nil_r. }
  assert (∃ evs', tr ++ evs = tr ++ evs' ∧ upload_log evs' = []) as Hstop
    by by exists evs.
  assert (∃ evs',
            (generate_loop E self prompt budget
               (S index mod length (provider_list self))%nat
               ((tr ++ evs) ++ [EvSleep 1])).2.2 = tr ++ evs'
            ∧ upload_log evs' = []) as Hnext.
  { destruct (IH (S index mod length (provider_list self))%nat
                ((tr ++ evs) ++ [EvSleep 1])) as (evs' & -> & Hevs').
    exists (evs ++ [EvSleep 1] ++ evs'). split; [by rewrite <- !app_assoc|].
    by rewrite !upload_log_app, Hevs, Hevs'. }
  destruct content as [content|exc]; [|done].
  destruct (truthy content); [|done].
  destruct content; try done.
  by destruct (negb (Nat.eqb (length (_parse_thread s)) 0)
               && Nat.leb 3 (length (_parse_thread s))).
Qed.

Lemma status_of_generation_failed topic :
  subscript (generation_failed topic) "status" = Some (JStr "failed")
  ∧ subscript (generation_failed topic) "reason"
    = Some (JStr "generation_failed").
Proof. split; cbn; lookup_literal. Qed.

Lemma status_of_posting_failed topic :
  subscript (posting_failed topic) "status" = Some (JStr "failed")
  ∧ subscript (posting_failed topic) "reason" = Some (JStr "posting_failed").
Proof. split; cbn; lookup_literal. Qed.

(** X17. Whenever generate_and_post returns a result, its status is
    success exactly when a thread was generated and at least its first
    post was created, whether or not the other posts were: the result
    then names the uri of that first post and lists all the generated
    texts.  It returns no result only when generate_thread raised, or
    when post_thread raised after every post had been created. *)
Theorem success_means_first_post E local_now gen pub config tr :
  (∀ r,
     (generate_and_post E local_now gen pub config tr).1 = Returned r →
     (subscript r "status" = Some (JStr "success") →
      ∃ posts index tr1 first rest,
        generate_thread E gen (tc_topic config) 2 tr
        = (Returned (Some posts), (index, tr1))
        ∧ (post_thread E pub posts (checked_image E (tc_image config)) tr1).1
          = Returned (Some (first :: rest))
        ∧ created_count
            (thread_log E pub posts (checked_image E (tc_image config)) tr1)
          = S (length rest)
        ∧ subscript r "uri" = Some (uri first)
        ∧ subscript r "posts" = Some (JArr (JStr <$> posts)))
     ∧ (∀ posts index tr1,
          generate_thread E gen (tc_topic config) 2 tr
          = (Returned (Some posts), (index, tr1)) →
          (1 ≤ created_count
                 (thread_log E pub posts (checked_image E (tc_image config))
                    tr1))%nat →
          subscript r "status" = Some (JStr "success")))
  ∧ (∀ exc,
       (generate_and_post E local_now gen pub config tr).1 = Raised exc →
       (generate_thread E gen (tc_topic config) 2 tr).1 = Raised exc
       ∨ ∃ posts index tr1,
           generate_thread E gen (tc_topic config) 2 tr
           = (Returned (Some posts), (index, tr1))
           ∧ created_count
               (thread_log E pub posts (checked_image E (tc_image config))
                  tr1)
             = length posts
           ∧ (post_thread E pub posts (checked_image E (tc_image config))
                tr1).1 = Raised exc).
Proof.
  unfold generate_and_post.
  destruct (generate_thread E gen (tc_topic config) 2 tr)
    as [[[posts|]|exc] [index tr1]] eqn:Hgen.
  3:{ split; [done|]. intros exc' [= <-]. by left. }
  2:{ split; [|done]. intros r [= <-]. split; [|done].
      by rewrite (proj1 (status_of_generation_failed _)). }
  destruct posts as [|post posts].
  { split; [|done]. intros r [= <-]. split.
    - by rewrite (proj1 (status_of_generation_failed _)).
    - intros ? ? ? [= <- _ _]. rewrite thread_log_empty. cbn. lia. }
  destruct (post_thread_returns_created E pub (post :: posts)
              (checked_image E (tc_image config)) tr1)
    as (final & Hret & Hcount); [done|].
  destruct (post_thread E pub (post :: posts)
              (checked_image E (tc_image config)) tr1)
    as [result tr2] eqn:Hpost.
  cbn [fst] in Hret. subst result.
  destruct (thread_return (length (post :: posts)) final)
    as [[[|first rest]|]|exc] eqn:Hr.
  - by apply thread_return_some in Hr as [_ ?].
  - apply thread_return_some in Hr as [-> _].
    split; [|done]. intros r [= <-]. split.
    + intros _. exists (post :: posts), index, tr1, first, rest.
      rewrite Hpost. cbn [fst]. repeat split; try done.
      all: cbn [subscript]; lookup_literal.
    + intros _ _ _ _ _. cbn [subscript]. lookup_literal.
  - apply thread_return_none in Hr as ->.
    split; [|done]. intros r [= <-]. split.
    + by rewrite (proj1 (status_of_posting_failed _)).
    + intros ? ? ? [= <- <- <-]. rewrite Hcount. cbn. lia.
  - split; [done|]. intros exc' [= <-]. right.
    exists (post :: posts), index, tr1. rewrite Hpost, Hcount.
    split; [done|]. split; [|done]. by apply thread_return_raised in Hr.
Qed.

Lemma success_means_first_post_witness :
  ∃ r,
    (generate_and_post AutoFixtures.one_post_world (λ _, Fixtures.noon)
       GenFixtures.bot Fixtures.alice AutoFixtures.five_posts_config []).1
    = Returned r
    ∧ subscript r "posts"
      = Some (JArr (JStr <$> ["one (1/5)"; "two"; "three"; "five"]))
    ∧ created_count
        (thread_log AutoFixtures.one_post_world Fixtures.alice
           ["one (1/5)"; "two"; "three"; "five"] None
           (generate_thread AutoFixtures.one_post_world GenFixtures.bot
              "topic" 2 []).2.2) = 1%nat.
Proof.
  assert (∃ r,
            (generate_and_post AutoFixtures.one_post_world (λ _, Fixtures.noon)
               GenFixtures.bot Fixtures.alice AutoFixtures.five_posts_config
               []).1 = Returned r
            ∧ subscript r "status" = Some (JStr "success"))
    as (r & Hr & Hstatus).
  { eexists. split; vm_compute; reflexivity. }
  exists r. split; [exact Hr|].
  destruct (proj1 (proj1 (success_means_first_post _ _ _ _ _ _) r Hr) Hstatus)
    as (posts & index & tr1 & first & rest & Hgen & _ & _ & _ & Hposts).
  assert (posts = ["one (1/5)"; "two"; "three"; "five"]) as ->.
  { vm_compute in Hgen. by injection Hgen as <- _ _. }
  split; [exact Hposts|]. vm_compute. reflexivity.
Defined.

(** X18. The two failures of generate_and_post: with reason
    generation_failed no thread was generated and nothing was asked of
    the publisher, the trace being the one generate_thread left; with
    reason posting_failed a thread was generated and none of its posts
    was created. *)
Theorem failure_reasons E local_now gen pub config tr r :
  (generate_and_post E local_now gen pub config tr).1 = Returned r →
  subscript r "status" = Some (JStr "failed") →
  (subscript r "reason" = Some (JStr "generation_failed")
   ∧ (generate_thread E gen (tc_topic config) 2 tr).1 = Returned None
   ∧ (generate_and_post E local_now gen pub config tr).2
     = (generate_thread E gen (tc_topic config) 2 tr).2)
  ∨ (subscript r "reason" = Some (JStr "posting_failed")
     ∧ ∃ posts index tr1,
         generate_thread E gen (tc_topic config) 2 tr
         = (Returned (Some posts), (index, tr1))
         ∧ created_count
             (thread_log E pub posts (checked_image E (tc_image config)) tr1)
           = 0%nat).
Proof.
  unfold generate_and_post.
  pose proof (generate_loop_min_size E gen
                (_create_thread_prompt (tc_topic config))
                (Z.to_nat (Z.min 2 (Z.of_nat (length (provider_list gen)))))
                (current_index gen) tr) as Hmin.
  fold (generate_thread E gen (tc_topic config) 2 tr) in Hmin.
  destruct (generate_thread E gen (tc_topic config) 2 tr)
    as [[[posts|]|exc] [index tr1]] eqn:Hgen; [| |done].
  2:{ intros [= <-] _. left.
      by rewrite (proj2 (status_of_generation_failed _)). }
  specialize (Hmin posts eq_refl).
  destruct posts as [|post posts]; [cbn in Hmin; lia|].
  destruct (post_thread_returns_created E pub (post :: posts)
              (checked_image E (tc_image config)) tr1)
    as (final & Hret & Hcount); [done|].
  destruct (post_thread E pub (post :: posts)
              (checked_image E (tc_image config)) tr1)
    as [result tr2] eqn:Hpost.
  cbn [fst] in Hret. subst result.
  destruct (thread_return (length (post :: posts)) final)
    as [[[|first rest]|]|exc] eqn:Hr; [| | |done].
  - by apply thread_return_some in Hr as [_ ?].
  - intros [= <-]. cbn [subscript]. intros Hstatus. exfalso.
    revert Hstatus. lookup_literal.
  - apply thread_return_none in Hr as ->. intros [= <-] _. right.
    rewrite (proj2 (status_of_posting_failed _)).
    split; [done|]. by exists (post :: posts), index, tr1.
Qed.

Lemma failure_reasons_witness :
  (generate_and_post (GenFixtures.llm (JStr "a---b")) (λ _, Fixtures.noon)
     GenFixtures.bot Fixtures.alice AutoFixtures.five_posts_config []).2
  = (generate_thread (GenFixtures.llm (JStr "a---b")) GenFixtures.bot
       "topic" 2 []).2.
Proof.
  assert (∃ r,
            (generate_and_post (GenFixtures.llm (JStr "a---b"))
               (λ _, Fixtures.noon) GenFixtures.bot Fixtures.alice
               AutoFixtures.five_posts_config []).1 = Returned r
            ∧ subscript r "status" = Some (JStr "failed")
            ∧ subscript r "reason" ≠ Some (JStr "posting_failed"))
    as (r & Hr & Hstatus & Hreason).
  { eexists. split; [vm_compute; reflexivity|].
    split; [vm_compute; reflexivity|]. vm_compute. discriminate. }
  destruct (failure_reasons _ _ _ _ _ _ _ Hr Hstatus)
    as [(_ & _ & Htrace)|(Hposting & _)].
  - exact Htrace.
  - destruct (Hreason Hposting).
Defined.

(** X19. An image that is named but is not on the disk is dropped:
    generate_and_post then sends no upload at all, and a success
    records the image as None. *)
Theorem missing_image_is_dropped E local_now gen pub config tr p :
  tc_image config = Some p →
  p ≠ EmptyString →
  fs E p = Missing →
  upload_log (new_events tr
                (generate_and_post E local_now gen pub config tr).2.2) = []
  ∧ ∀ r,
      (generate_and_post E local_now gen pub config tr).1 = Returned r →
      subscript r "status" = Some (JStr "success") →
      subscript r "image" = Some JNull.
Proof.
  intros Himage Hp Hfs.
  assert (checked_image E (tc_image config) = None) as Hchecked.
  { rewrite Himage. unfold checked_image. rewrite Hfs.
    apply String.eqb_neq in Hp. by rewrite Hp. }
  unfold generate_and_post. rewrite Hchecked.
  destruct (generate_loop_no_upload E gen
              (_create_thread_prompt (tc_topic config))
              (Z.to_nat (Z.min 2 (Z.of_nat (length (provider_list gen)))))
              (current_index gen) tr) as (evs & Htr & Hevs).
  fold (generate_thread E gen (tc_topic config) 2 tr) in Htr.
  destruct (generate_thread E gen (tc_topic config) 2 tr)
    as [[[posts|]|exc] [index tr1]] eqn:Hgen; cbn [snd] in Htr; subst tr1.
  3:{ cbn. by rewrite new_events_app. }
  2:{ cbn [fst snd]. rewrite new_events_app. split; [done|]. intros r [= <-].
      by rewrite (proj1 (status_of_generation_failed _)). }
  destruct posts as [|post posts].
  { cbn [fst snd]. rewrite new_events_app. split; [done|]. intros r [= <-].
    by rewrite (proj1 (status_of_generation_failed _)). }
  rewrite post_thread_unfold. unfold thread_posted.
  cbn [image_stage fst snd].
  destruct (post_loop_chain E pub (length (post :: posts)) JNull
              (post :: posts) 1%nat [] JNull (tr ++ evs))
    as (evs' & Htr' & Hevs' & _).
  destruct (post_loop E pub (length (post :: posts)) 1 (post :: posts) []
              JNull JNull (tr ++ evs)) as [final tr2].
  cbn [fst snd] in *. subst tr2.
  assert (upload_log (new_events tr ((tr ++ evs) ++ evs')) = []) as Hnone.
  { by rewrite <- app_assoc, new_events_app, upload_log_app, Hevs, Hevs'. }
  destruct (thread_return (length (post :: posts)) final)
    as [[[|first rest]|]|exc]; cbn [fst snd]; (split; [done|]).
  - intros r [= <-]. by rewrite (proj1 (status_of_posting_failed _)).
  - intros r [= <-] _. cbn [subscript image_json]. lookup_literal.
  - intros r [= <-]. by rewrite (proj1 (status_of_posting_failed _)).
  - done.
Qed.

Lemma missing_image_is_dropped_witness :
  upload_log (new_events []
    (generate_and_post AutoFixtures.open_world (λ _, Fixtures.noon)
       GenFixtures.bot Fixtures.alice AutoFixtures.five_posts_config
       []).2.2) = [].
Proof.
  apply (proj1 (missing_image_is_dropped AutoFixtures.open_world
                  (λ _, Fixtures.noon) GenFixtures.bot Fixtures.alice
                  AutoFixtures.five_posts_config [] "missing.png"
                  eq_refl ltac:(discriminate) eq_refl)).
Defined.

(** ** Parsing the layout that the prompt asks for *)

Section Layout.

Lemma append_empty s : s +:+ EmptyString = s.
Proof. induction s as [|c s IH]; [done|]. by rewrite append_cons, IH. Qed.

Lemma rev_onto_rev_onto p :
  ∀ cur acc,
    PyStr.rev_onto (PyStr.rev_onto p cur) acc = PyStr.rev_onto cur (p +:+ acc).
Proof.
  induction p as [|c p IH]; intros cur acc; [done|].
  cbn [PyStr.rev_onto]. by rewrite IH, append_cons.
Qed.

Lemma lstrip_length s : (String.length (PyStr.lstrip s) ≤ String.length s)%nat.
Proof.
  induction s as [|c s IH]; [done|]. cbn.
  destruct (PyStr.is_space c); cbn; lia.
Qed.

(** A string that [lstrip] leaves alone starts with no white space. *)
Lemma lstrip_fixed post :
  post ≠ EmptyString → PyStr.lstrip post = post →
  ∃ c rest, post = String c rest ∧ PyStr.is_space c = false.
Proof.
  destruct post as [|c rest]; [done|]. intros _ Hfixed.
  exists c, rest. split; [done|]. cbn in Hfixed.
  destruct (PyStr.is_space c); [|done].
  pose proof (lstrip_length rest) as Hlen. rewrite Hfixed in Hlen.
  cbn in Hlen. lia.
Qed.

Lemma lstrip_newline s :
  PyStr.lstrip (String Re.newline s) = PyStr.lstrip s.
Proof. done. Qed.

Lemma lstrip_keep c s :
  PyStr.is_space c = false → PyStr.lstrip (String c s) = String c s.
Proof. intros Hc. cbn [PyStr.lstrip]. by rewrite Hc. Qed.

Lemma rstrip_newline post :
  PyStr.rstrip (post +:+ String Re.newline EmptyString) = PyStr.rstrip post.
Proof.
  unfold PyStr.rstrip, PyStr.rev at 2. by rewrite rev_onto_app.
Qed.

Lemma normalize_padded lead tail post :
  plain_post post →
  normalize_post (padded lead tail post) = post ∧ acceptable post = true.
Proof.
  intros (Hne & Hl & Hr & _ & Hq & Hlen).
  destruct (lstrip_fixed post Hne Hl) as (c & rest & -> & Hc).
  assert (PyStr.strip (padded lead tail (String c rest)) = String c rest)
    as Hstrip.
  { unfold PyStr.strip, padded.
    assert (PyStr.lstrip
              ((if lead then String Re.newline EmptyString else EmptyString)
               +:+ String c rest
               +:+ (if tail then String Re.newline EmptyString else EmptyString))
            = String c rest
              +:+ (if tail then String Re.newline EmptyString else EmptyString)) as ->.
    { set (tw := if tail then String Re.newline EmptyString else EmptyString).
      destruct lead.
      - change (PyStr.lstrip (String Re.newline (String c (rest +:+ tw)))
                = String c (rest +:+ tw)).
        by rewrite lstrip_newline, lstrip_keep.
      - change (PyStr.lstrip (String c (rest +:+ tw)) = String c (rest +:+ tw)).
        by rewrite lstrip_keep. }
    destruct tail; [by rewrite rstrip_newline|by rewrite append_empty]. }
  split.
  - unfold normalize_post. rewrite Hstrip. by rewrite Hq.
  - unfold acceptable. apply andb_true_iff. split; [done|by apply Nat.leb_le].
Qed.

Lemma startswith_dashes_newline s t :
  PyStr.startswith "---" (s +:+ String Re.newline t) = PyStr.startswith "---" s.
Proof.
  destruct s as [|a [|b [|c s]]]; cbn; done.
Qed.

(** Reading through a post without dashes, up to a line feed. *)
Lemma split_from_post post :
  ∀ cur t,
    PyStr.contains "---" post = false →
    PyStr.split_from "---" 0 cur (post +:+ String Re.newline t)
    = PyStr.split_from "---" 0 (PyStr.rev_onto post cur) (String Re.newline t).
Proof.
  induction post as [|c post IH]; intros cur t Hfree; [done|].
  cbn [PyStr.contains] in Hfree. apply orb_false_iff in Hfree as [Hhere Hrest].
  change (String c post +:+ String Re.newline t) with (String c (post +:+ String Re.newline t)).
  cbn [PyStr.split_from].
  change (String c (post +:+ String Re.newline t)) with (String c post +:+ String Re.newline t).
  rewrite startswith_dashes_newline, Hhere.
  by rewrite IH.
Qed.

(** Reading through the last post. *)
Lemma split_from_last post :
  ∀ cur,
    PyStr.contains "---" post = false →
    PyStr.split_from "---" 0 cur post = [PyStr.rev (PyStr.rev_onto post cur)].
Proof.
  induction post as [|c post IH]; intros cur Hfree; [done|].
  cbn [PyStr.contains] in Hfree. apply orb_false_iff in Hfree as [Hhere Hrest].
  cbn [PyStr.split_from]. rewrite Hhere. by rewrite IH.
Qed.

(** Reading through the line of dashes. *)
Lemma split_from_separator cur rest :
  PyStr.split_from "---" 0 cur (separator_line +:+ rest)
  = PyStr.rev (String Re.newline cur)
    :: PyStr.split_from "---" 0 (String Re.newline EmptyString) rest.
Proof. done. Qed.

Lemma join_posts_cons post next rest :
  join_posts (post :: next :: rest)
  = post +:+ separator_line +:+ join_posts (next :: rest).
Proof. done. Qed.

Lemma split_join_posts posts :
  Forall plain_post posts →
  posts ≠ [] →
  ∀ lead : bool,
    List.filter acceptable
      (normalize_post
       <$> PyStr.split_from "---" 0
             (if lead then String Re.newline EmptyString else EmptyString)
             (join_posts posts))
    = posts.
Proof.
  induction 1 as [|post rest Hpost Hrest IH]; [done|]. intros _ lead.
  pose proof Hpost as (_ & _ & _ & Hfree & _).
  destruct rest as [|next rest].
  - cbn [join_posts]. rewrite split_from_last by done.
    assert (PyStr.rev (PyStr.rev_onto post
              (if lead then String Re.newline EmptyString else EmptyString))
            = padded lead false post) as ->.
    { unfold PyStr.rev. rewrite rev_onto_rev_onto. by destruct lead. }
    cbn. destruct (normalize_padded lead false post Hpost) as [-> ->]. done.
  - rewrite join_posts_cons.
    change (separator_line +:+ join_posts (next :: rest))
      with (String Re.newline ("---" +:+ String Re.newline EmptyString
                       +:+ join_posts (next :: rest))).
    rewrite split_from_post by done.
    change (String Re.newline ("---" +:+ String Re.newline EmptyString
                       +:+ join_posts (next :: rest)))
      with (separator_line +:+ join_posts (next :: rest)).
    rewrite split_from_separator.
    assert (PyStr.rev (String Re.newline (PyStr.rev_onto post
              (if lead then String Re.newline EmptyString else EmptyString)))
            = padded lead true post) as ->.
    { unfold PyStr.rev. cbn [PyStr.rev_onto]. rewrite rev_onto_rev_onto.
      by destruct lead. }
    cbn [fmap list_fmap List.filter].
    destruct (normalize_padded lead true post Hpost) as [-> ->].
    f_equal. by apply (IH ltac:(done) true).
Qed.

Lemma contains_app_r x s t :
  PyStr.contains x t = true → PyStr.contains x (s +:+ t) = true.
Proof.
  intros Ht. induction s as [|c s IH]; [done|].
  rewrite append_cons. cbn [PyStr.contains]. rewrite IH. apply orb_true_r.
Qed.

Lemma strip_prefix_other content prefix :
  PyStr.startswith (PyStr.lower prefix) (PyStr.lower content) = false →
  strip_prefix content prefix = content.
Proof. intros Hno. unfold strip_prefix. by rewrite Hno. Qed.

Lemma unprefixed_fold content :
  unprefixed content → foldl strip_prefix content prefixes = content.
Proof.
  unfold unprefixed, prefixes. intros Hall.
  apply Forall_cons in Hall as [H1 Hall].
  apply Forall_cons in Hall as [H2 Hall].
  apply Forall_cons in Hall as [H3 _].
  cbn [foldl].
  by rewrite (strip_prefix_other _ _ H1), (strip_prefix_other _ _ H2),
    (strip_prefix_other _ _ H3).
Qed.

End Layout.

(** X20. When the content has the layout that the prompt asks for, at
    least two posts with a line of three dashes between two of them,
    and the posts are plain (not empty, no white space at the ends, no
    three dashes in a row, not wrapped in quotes, at most 300
    characters), and the content begins with none of the three
    prefixes, then _parse_thread returns exactly these posts. *)
Theorem parse_of_layout posts :
  (2 ≤ length posts)%nat →
  Forall plain_post posts →
  unprefixed (join_posts posts) →
  _parse_thread (join_posts posts) = posts.
Proof.
  intros Hlen Hplain Hprefix.
  unfold _parse_thread. rewrite unprefixed_fold by done.
  rewrite clean_posts_filter. cbn [app].
  assert (PyStr.contains "---" (join_posts posts) = true) as Hdashes.
  { destruct posts as [|post [|next rest]]; [cbn in Hlen; lia..|].
    rewrite join_posts_cons. by apply contains_app_r. }
  unfold split_posts. rewrite Hdashes. unfold PyStr.split.
  apply (split_join_posts posts Hplain ltac:(by destruct posts) false).
Qed.

Lemma parse_of_layout_witness :
  _parse_thread (join_posts ["Decentralized and open"; "Your feed, your rules";
                             "What do you think?"])
  = ["Decentralized and open"; "Your feed, your rules"; "What do you think?"].
Proof.
  apply parse_of_layout.
  - cbn. lia.
  - repeat constructor; try discriminate; cbn; lia.
  - repeat constructor.
Defined.

(** ** From the login to the posts *)

(** X21. The token of the login is the token of the posts: when the
    login request of the constructor was answered by a 200 whose JSON
    body holds an accessJwt, every request of a later post_thread on
    the constructed publisher carries the Authorization header built
    from that accessJwt, whether or not the body also held a did. *)
Theorem login_token_flows E handle app_password tr req res data tok :
  (publisher_init E handle app_password tr).2 = tr ++ [EvRequest req res] →
  json_of_200 res = Some data →
  subscript data "accessJwt" = Some tok →
  session (publisher_init E handle app_password tr).1 = data
  ∧ ∀ posts image_path,
      Forall (λ req, req_headers req !! "Authorization" = Some (HBearer tok))
        (requests_of
           (new_events (publisher_init E handle app_password tr).2
              (post_thread E (publisher_init E handle app_password tr).1
                 posts image_path
                 (publisher_init E handle app_password tr).2).2)).
Proof.
  intros Htr Hres Htok.
  assert (session (publisher_init E handle app_password tr).1 = data) as Hs.
  { revert Htr. unfold publisher_init, authenticate.
    set (req0 := {| req_url := _; req_headers := _; req_body := _;
                    req_timeout := _ |}).
    intros Htr.
    assert (net E tr req0 = res) as ->.
    { destruct (net E tr req0) as [r|]; cbn in Htr.
      - destruct (status_code r =? 200); [destruct (resp_json r) as [data'|];
          [destruct (subscript data' "did")|]|];
          cbn in Htr; by apply app_inv_head in Htr as [= _ <-].
      - by apply app_inv_head in Htr as [= _ <-]. }
    destruct res as [r|]; [|done]. cbn in Hres.
    destruct (status_code r =? 200); [|done]. rewrite Hres.
    by destruct (subscript data "did"). }
  split; [done|]. intros posts image_path.
  apply post_thread_bears_token. by rewrite Hs.
Qed.

Lemma login_token_flows_witness :
  session (publisher_init AutoFixtures.login_world "alice.bsky.social" "pw"
             []).1
  = JObj {[ "did" := JStr "did:plc:a"; "accessJwt" := JStr "jwt" ]}.
Proof.
  assert (∃ req,
            (publisher_init AutoFixtures.login_world "alice.bsky.social" "pw"
               []).2 = [] ++ [EvRequest req AutoFixtures.login_response])
    as [req Htr].
  { eexists. reflexivity. }
  exact (proj1 (login_token_flows AutoFixtures.login_world
                  "alice.bsky.social" "pw" [] req AutoFixtures.login_response
                  (JObj {[ "did" := JStr "did:plc:a";
                           "accessJwt" := JStr "jwt" ]})
                  (JStr "jwt") Htr eq_refl eq_refl)).
Defined.

(** ** The width of the time stamp *)

(** X22. For a date and time in the ranges of Python's datetime, the
    createdAt of a post has a fixed width: 20 characters,
    YYYY-MM-DDTHH:MM:SSZ, when the microseconds are zero, and 27
    otherwise, with six digits of fraction. *)
Theorem created_at_width d :
  Z.of_nat (year d) ≤ 9999 → Z.of_nat (month d) ≤ 12 →
  Z.of_nat (day d) ≤ 31 → Z.of_nat (hour d) ≤ 23 →
  Z.of_nat (minute d) ≤ 59 → Z.of_nat (second d) ≤ 59 →
  Z.of_nat (microsecond d) ≤ 999999 →
  String.length (created_at d)
  = if Nat.eqb (microsecond d) 0 then 20%nat else 27%nat.
Proof.
  intros Hy Hmo Hd Hh Hmi Hs Hus.
  assert (∀ n, Z.of_nat n ≤ 99 → String.length (Iso.pad 2 n) = 2%nat) as Htwo.
  { intros n Hn. apply pad_width; [lia|].
    change (10 ^ Z.of_nat 2) with 100. lia. }
  assert (String.length (Iso.pad 4 (year d)) = 4%nat) as Hfour.
  { apply pad_width; [lia|]. change (10 ^ Z.of_nat 4) with 10000. lia. }
  assert (String.length (Iso.pad 6 (microsecond d)) = 6%nat) as Hsix.
  { apply pad_width; [lia|]. change (10 ^ Z.of_nat 6) with 1000000. lia. }
  rewrite created_at_eq. unfold Iso.local_part.
  rewrite !length_append, Hfour, !Htwo by lia.
  destruct (Nat.eqb (microsecond d) 0); [done|].
  by rewrite length_append, Hsix.
Qed.

Lemma created_at_width_witness :
  String.length (created_at Fixtures.noon) = 20%nat.
Proof.
  apply (created_at_width Fixtures.noon); cbn; lia.
Defined.

(** ** The outcomes of [upload_image] *)

(** X23. upload_image gives None without sending anything when the
    file is missing or cannot be read; and a blob that it returns was
    taken, as it is, from the blob field of the JSON body of a 200
    answer to the one request it sent, whose body is the content of the
    file. *)
Theorem upload_image_outcomes E self image_path tr :
  (fs E image_path = Missing ∨ fs E image_path = Unreadable →
   upload_image E self image_path tr = (JNull, tr))
  ∧ ((upload_image E self image_path tr).1 ≠ JNull →
     ∃ req data answer,
       (upload_image E self image_path tr).2
       = tr ++ [EvRequest req (net E tr req)]
       ∧ fs E image_path = Content data
       ∧ req_body req = BodyData data
       ∧ json_of_200 (net E tr req) = Some answer
       ∧ subscript answer "blob" = Some (upload_image E self image_path tr).1).
Proof.
  split.
  - unfold upload_image. by intros [-> | ->].
  - destruct (upload_image_request E self image_path tr)
      as [->|(req & data & tok & -> & Hfs & Hbody & _)]; [done|].
    cbn [fst snd]. intros Hblob. exists req, data.
    unfold parse_blob, json_of_200 in *.
    destruct (net E tr req) as [r|]; [|done].
    destruct (status_code r =? 200); [|done].
    destruct (resp_json r) as [answer|]; [|done]. cbn in *.
    exists answer. destruct (subscript answer "blob"); [done|].
    by destruct Hblob.
Qed.

Lemma upload_image_outcomes_witness :
  upload_image (Fixtures.world 9) Fixtures.alice "nowhere.png" [] = (JNull, []).
Proof.
  apply (proj1 (upload_image_outcomes (Fixtures.world 9) Fixtures.alice
                  "nowhere.png" [])).
  left. reflexivity.
Defined.

(** ** A refused upload *)

(** X24. A refused upload does not stop the thread: when upload_image
    gives no blob, the first record creation carries no embed; and if
    the session holds a token and every record creation sent in the run
    succeeded, there is a creation and a post for every text, and the
    list of these posts is what post_thread returns when the uri of the
    first is a string. *)
Theorem upload_failure_keeps_thread E self posts path tr :
  posts ≠ [] →
  (upload_image E self path tr).1 = JNull →
  (∀ sent,
     thread_log E self posts (Some path) tr !! 0%nat = Some sent →
     payload_field "embed" sent.1 = None)
  ∧ (is_Some (_get_headers self) →
     Forall (λ sent, is_Some (parse_created sent.2))
       (thread_log E self posts (Some path) tr) →
     length (thread_posted E self posts (Some path) tr) = length posts
     ∧ length (thread_log E self posts (Some path) tr) = length posts
     ∧ ∀ first,
         thread_posted E self posts (Some path) tr !! 0%nat = Some first →
         is_str (uri first) →
         (post_thread E self posts (Some path) tr).1
         = Returned (Some (thread_posted E self posts (Some path) tr))).
Proof.
  intros Hposts Hup. split.
  { intros sent. by apply blobless_first_post. }
  intros Hh Hall.
  pose proof (thread_posted_full E self posts (Some path) tr Hh Hall) as Hlen.
  destruct (post_thread_run E self posts (Some path) tr Hposts)
    as (final & Hret & Hchain & Hfinal).
  rewrite <- Hfinal in *. clear Hfinal.
  destruct (chain_extends _ _ _ _ _ _ Hchain)
    as (created & Hcreated & Hle & _ & Hn & _ & _).
  cbn in Hcreated. subst created.
  split; [done|]. split; [lia|].
  intros first Hfirst Hstr. rewrite Hret.
  destruct final as [|first' more]; [done|].
  cbn in Hfirst. injection Hfirst as ->. by apply thread_return_str.
Qed.

Lemma upload_failure_keeps_thread_witness :
  (post_thread Fixtures.blobless_world Fixtures.alice ["a"; "b"]
     (Some "a.PNG") []).1
  = Returned (Some (thread_posted Fixtures.blobless_world Fixtures.alice
                      ["a"; "b"] (Some "a.PNG") []))
  ∧ length (thread_posted Fixtures.blobless_world Fixtures.alice
              ["a"; "b"] (Some "a.PNG") []) = 2%nat.
Proof.
  assert (["a"; "b"] ≠ ([] : list string)) as Hposts by discriminate.
  assert ((upload_image Fixtures.blobless_world Fixtures.alice "a.PNG" []).1
          = JNull) as Hup by reflexivity.
  assert (is_Some (_get_headers Fixtures.alice)) as Hh by (by eexists).
  assert (Forall (λ sent, is_Some (parse_created sent.2))
            (thread_log Fixtures.blobless_world Fixtures.alice ["a"; "b"]
               (Some "a.PNG") [])) as Hall.
  { vm_compute. repeat constructor; by eexists. }
  destruct (proj2 (upload_failure_keeps_thread Fixtures.blobless_world
                     Fixtures.alice ["a"; "b"] "a.PNG" [] Hposts Hup)
              Hh Hall) as (Hlen & _ & Hret).
  split; [|exact Hlen].
  apply (Hret (Fixtures.post 1)); [vm_compute; reflexivity|by eexists].
Defined.
